(** * DocGuard AI frontend: upload polling, teardown and batch context

    A shallow embedding of the polling / orchestration part of
    [frontend/app.js]: the module-level state ([currentPage],
    [currentDocId], [currentBatchId], [currentBatchDocIds],
    [processingInterval], [agentStepInterval]), the functions
    [navigateTo], [resetUpload], [uploadSingle], [uploadBatch],
    [deleteDocument], [deleteHistoryItem], [openBatchFromHistory],
    [fetchLatestDocForAnalysis] and [loadAnalysis], and the part of the
    browser they run on: the table of active timers behind
    [setInterval] / [setTimeout] / [clearInterval] and the status
    requests that are awaiting their reply.

    JavaScript runs one callback at a time, so the program is a
    transition system: every event (a user action, a timer firing, a
    reply arriving) runs one callback to its next [await] and yields
    the next state.  Time itself is not modelled: timers and replies
    may be delivered in any order the browser allows.  DOM writes
    (overlay, step classes, progress text) and the list of selected
    files are left out; what the user is shown is recorded as a list
    of [Effect]s. *)

From stdpp Require Import base gmap list strings pretty.
From Stdlib Require Import ZArith Lia Ascii.

Local Open Scope Z_scope.
Local Open Scope string_scope.
Local Open Scope list_scope.

(** ** Values *)

(** Document and batch ids are JSON numbers.  A JS value used as a
    condition is falsy when it is [null] / [undefined] or the number 0. *)
Definition truthy (v : option Z) : bool :=
  match v with
  | Some n => negb (Z.eqb n 0)
  | None => false
  end.

(** The value of [v] in the branch guarded by [if (v)]. *)
Definition if_truthy (v : option Z) : option Z :=
  if truthy v then v else None.

(** [a || b] on an optional string: the empty string is falsy too. *)
Definition or_default (v : option string) (d : string) : string :=
  match v with
  | Some s => if String.eqb s "" then d else s
  | None => d
  end.

(** [Array.prototype.includes] on an array of numbers. *)
Definition includes (l : list Z) (x : Z) : bool := existsb (Z.eqb x) l.

(** ** Timers and pending requests *)

(** The callbacks handed to [setInterval] and [setTimeout], with the
    variables they close over. *)
Inductive Task :=
| AgentStepTick (step : nat)
    (* the animator of uploadSingle / uploadBatch, closing over [let step] *)
| PollSingle (docId : Z)
    (* the status poll of uploadSingle *)
| PollBatch (batchId : Z) (docIds : list Z)
    (* the status poll of uploadBatch *)
| CompleteSingle (docId : Z)
    (* setTimeout(..., 1200) of the 'completed' branch of uploadSingle *)
| CompleteBatch (batchId : Z) (docIds : list Z)
    (* setTimeout(..., 2000) of the 'completed' branch of uploadBatch *)
| DeletePause.
    (* await new Promise(r => setTimeout(r, 600)) in deleteDocument *)

Record Timer := mkTimer {
  repeat : bool;   (* setInterval (true) or setTimeout (false) *)
  delay : Z;       (* milliseconds *)
  task : Task
}.

(** An async function suspended at [await fetch(...)]. *)
Inductive Pending :=
| UploadSingleK
| UploadBatchK
| PollSingleK (docId : Z)
| PollBatchK (batchId : Z) (docIds : list Z)
| DeleteDocumentK (docId : Z)
| DeleteHistoryK (type : string) (realId : Z)
| OpenBatchK (batchId : Z)
| FetchLatestK.

(** A row of GET /api/documents, as far as the script reads it. *)
Record DocumentRow := mkRow {
  row_id : Z;
  row_status : string;
  row_has_analysis : bool
}.

(** What the awaited request produced.  [Threw] stands for every way
    the awaited code raises: [fetch] rejecting, [res.json()] rejecting,
    and reading a field of a missing object. *)
Inductive Reply :=
| Threw (msg : string)
| HttpError (error : option string)
| Uploaded (document_id : Z)
| BatchUploaded (batch_id : Z) (document_ids : list Z)
| DocumentStatus (status : string)
| BatchStatus (status : string) (documents : list Z)
| Deleted
| DocumentList (documents : list DocumentRow).

(** What reaches the user. *)
Inductive Effect :=
| Alert (msg : string)
| LoadAnalysis (docId : Z) (batchId : option Z)
| LoadPage (page : string)
| ConsoleError (msg : string).

(** What happens on the wire. *)
Inductive Wire :=
| Sent (req : positive) (k : Pending)
| Settled (req : positive) (k : Pending) (reply : Reply).

(** ** State *)

Record State := mkState {
  currentPage : string;
  currentDocId : option Z;
  currentBatchId : option Z;
  currentBatchDocIds : list Z;
  processingInterval : option positive;
  agentStepInterval : option positive;
  agentSteps : nat;    (* document.querySelectorAll('.agent-step').length *)
  timers : gmap positive Timer;
  nextTimer : positive;
  inflight : gmap positive Pending;
  nextRequest : positive;
  effects : list Effect;
  wire : list Wire
}.

Definition set_currentPage (v : string) (st : State) : State :=
  mkState v (currentDocId st) (currentBatchId st) (currentBatchDocIds st)
    (processingInterval st) (agentStepInterval st) (agentSteps st)
    (timers st) (nextTimer st) (inflight st) (nextRequest st)
    (effects st) (wire st).

Definition set_currentDocId (v : option Z) (st : State) : State :=
  mkState (currentPage st) v (currentBatchId st) (currentBatchDocIds st)
    (processingInterval st) (agentStepInterval st) (agentSteps st)
    (timers st) (nextTimer st) (inflight st) (nextRequest st)
    (effects st) (wire st).

Definition set_batch (b : option Z) (ids : list Z) (st : State) : State :=
  mkState (currentPage st) (currentDocId st) b ids
    (processingInterval st) (agentStepInterval st) (agentSteps st)
    (timers st) (nextTimer st) (inflight st) (nextRequest st)
    (effects st) (wire st).

Definition set_processingInterval (v : option positive) (st : State) : State :=
  mkState (currentPage st) (currentDocId st) (currentBatchId st)
    (currentBatchDocIds st) v (agentStepInterval st) (agentSteps st)
    (timers st) (nextTimer st) (inflight st) (nextRequest st)
    (effects st) (wire st).

Definition set_agentStepInterval (v : option positive) (st : State) : State :=
  mkState (currentPage st) (currentDocId st) (currentBatchId st)
    (currentBatchDocIds st) (processingInterval st) v (agentSteps st)
    (timers st) (nextTimer st) (inflight st) (nextRequest st)
    (effects st) (wire st).

Definition set_timers (v : gmap positive Timer) (st : State) : State :=
  mkState (currentPage st) (currentDocId st) (currentBatchId st)
    (currentBatchDocIds st) (processingInterval st) (agentStepInterval st)
    (agentSteps st) v (nextTimer st) (inflight st) (nextRequest st)
    (effects st) (wire st).

Definition set_nextTimer (v : positive) (st : State) : State :=
  mkState (currentPage st) (currentDocId st) (currentBatchId st)
    (currentBatchDocIds st) (processingInterval st) (agentStepInterval st)
    (agentSteps st) (timers st) v (inflight st) (nextRequest st)
    (effects st) (wire st).

Definition set_inflight (v : gmap positive Pending) (st : State) : State :=
  mkState (currentPage st) (currentDocId st) (currentBatchId st)
    (currentBatchDocIds st) (processingInterval st) (agentStepInterval st)
    (agentSteps st) (timers st) (nextTimer st) v (nextRequest st)
    (effects st) (wire st).

Definition set_nextRequest (v : positive) (st : State) : State :=
  mkState (currentPage st) (currentDocId st) (currentBatchId st)
    (currentBatchDocIds st) (processingInterval st) (agentStepInterval st)
    (agentSteps st) (timers st) (nextTimer st) (inflight st) v
    (effects st) (wire st).

Definition set_effects (v : list Effect) (st : State) : State :=
  mkState (currentPage st) (currentDocId st) (currentBatchId st)
    (currentBatchDocIds st) (processingInterval st) (agentStepInterval st)
    (agentSteps st) (timers st) (nextTimer st) (inflight st) (nextRequest st)
    v (wire st).

Definition set_wire (v : list Wire) (st : State) : State :=
  mkState (currentPage st) (currentDocId st) (currentBatchId st)
    (currentBatchDocIds st) (processingInterval st) (agentStepInterval st)
    (agentSteps st) (timers st) (nextTimer st) (inflight st) (nextRequest st)
    (effects st) v.

(** The state when the script has been loaded (lines 8-14), on a page
    with [n] agent steps. *)
Definition initial (n : nat) : State :=
  mkState "dashboard" None None [] None None n ∅ 1%positive ∅ 1%positive [] [].

(** ** Browser primitives *)

Definition emit (e : Effect) (st : State) : State :=
  set_effects (effects st ++ [e]) st.

Definition alert (msg : string) : State → State := emit (Alert msg).

(** [setInterval] and [setTimeout] draw their handles from one
    counter and share one table of active timers. *)
Definition setInterval (t : Task) (ms : Z) (st : State) : positive * State :=
  (nextTimer st,
   set_nextTimer (Pos.succ (nextTimer st))
     (set_timers (<[nextTimer st := mkTimer true ms t]> (timers st)) st)).

Definition setTimeout (t : Task) (ms : Z) (st : State) : State :=
  set_nextTimer (Pos.succ (nextTimer st))
    (set_timers (<[nextTimer st := mkTimer false ms t]> (timers st)) st).

(** [clearInterval(v)]: a no-op on [null] and on a handle that is no
    longer active. *)
Definition clearInterval (v : option positive) (st : State) : State :=
  match v with
  | Some h => set_timers (delete h (timers st)) st
  | None => st
  end.

(** [await fetch(...)]: the request goes out and the caller is parked
    until its reply is delivered. *)
Definition fetch (k : Pending) (st : State) : State :=
  set_wire (wire st ++ [Sent (nextRequest st) k])
    (set_nextRequest (Pos.succ (nextRequest st))
       (set_inflight (<[nextRequest st := k]> (inflight st)) st)).

(** ** The program *)

(** [resetUpload] (lines 259-270). *)
Definition resetUpload (st : State) : State :=
  let st := match processingInterval st with
            | Some _ => clearInterval (processingInterval st) st
            | None => st
            end in
  let st := match agentStepInterval st with
            | Some _ => clearInterval (agentStepInterval st) st
            | None => st
            end in
  set_agentStepInterval None (set_processingInterval None st).

(** [loadAnalysis] (from line 643): the assignment to [currentDocId]
    runs before the first [await]; the rest renders the view. *)
Definition loadAnalysis (docId : Z) (batchId : option Z) (st : State) : State :=
  emit (LoadAnalysis docId batchId) (set_currentDocId (Some docId) st).

(** [fetchLatestDocForAnalysis] (lines 273-285), up to its [await]. *)
Definition fetchLatestDocForAnalysis : State → State := fetch FetchLatestK.

(** The batch-membership check of [navigateTo] (lines 39-43). *)
Definition clearStaleBatch (docId : Z) (st : State) : State :=
  if truthy (currentBatchId st) && negb (includes (currentBatchDocIds st) docId)
  then set_batch None [] st
  else st.

(** [navigateTo] (lines 17-55).  The loaders of the other pages only
    fetch and render. *)
Definition navigateTo (page : string) (docId : option Z) (st : State) : State :=
  let st := set_currentPage page st in
  if String.eqb page "dashboard" then emit (LoadPage page) st
  else if String.eqb page "upload" then resetUpload st
  else if String.eqb page "documents" then emit (LoadPage page) st
  else if String.eqb page "standards" then emit (LoadPage page) st
  else if String.eqb page "history" then emit (LoadPage page) st
  else if String.eqb page "analysis" then
    match if_truthy docId with
    | Some d =>
        let st := clearStaleBatch d st in
        loadAnalysis d (currentBatchId st) st
    | None =>
        match if_truthy (currentDocId st) with
        | Some c => loadAnalysis c (currentBatchId st) st
        | None => fetchLatestDocForAnalysis st
        end
    end
  else if String.eqb page "chat" then emit (LoadPage page) st
  else st.

(** [uploadSingle], [uploadBatch], [openBatchFromHistory] up to the
    [await] of their request; [deleteDocument] and [deleteHistoryItem]
    return at once when the user does not confirm. *)
Definition uploadSingle : State → State := fetch UploadSingleK.
Definition uploadBatch : State → State := fetch UploadBatchK.
Definition openBatchFromHistory (batchId : Z) : State → State :=
  fetch (OpenBatchK batchId).
Definition deleteDocument (docId : Z) (confirmed : bool) (st : State) : State :=
  if confirmed then fetch (DeleteDocumentK docId) st else st.
Definition deleteHistoryItem (type : string) (realId : Z) (confirmed : bool)
    (st : State) : State :=
  if confirmed then fetch (DeleteHistoryK type realId) st else st.

(** The animator callback (lines 335-344 and 423-432), running as
    timer [h].  Its closure variable [step] is kept in the entry of
    the timer, so [step++] rewrites that entry while the timer is
    active.  The [else] branch clears whatever [agentStepInterval]
    holds at that moment. *)
Definition agentStepTick (h : positive) (step : nat) (st : State) : State :=
  if (step <? agentSteps st)%nat
  then set_timers
         (alter (λ tm, mkTimer (repeat tm) (delay tm) (AgentStepTick (S step)))
            h (timers st)) st
  else clearInterval (agentStepInterval st) st.

(** The two [setTimeout] callbacks that follow a 'completed' status
    (lines 360-366 and 474-484) and the code after the pause of
    [deleteDocument] (lines 1695-1700). *)
Definition completeSingle (docId : Z) (st : State) : State :=
  let st := resetUpload st in
  let st := set_batch None [] st in
  navigateTo "analysis" (Some docId) st.

Definition completeBatch (batchId : Z) (docIds : list Z) (st : State) : State :=
  let st := resetUpload st in
  let st := set_batch (Some batchId) docIds st in
  match docIds with
  | d :: _ => navigateTo "analysis" (Some d) st
  | [] => navigateTo "documents" None st
  end.

Definition afterDeletePause (st : State) : State :=
  if String.eqb (currentPage st) "analysis"
  then navigateTo "documents" None st
  else navigateTo (currentPage st) None st.

(** Timer [h] fires: a one-shot timer leaves the table first. *)
Definition fire (h : positive) (st : State) : State :=
  match timers st !! h with
  | None => st
  | Some tm =>
      let st := if repeat tm then st else set_timers (delete h (timers st)) st in
      match task tm with
      | AgentStepTick step => agentStepTick h step st
      | PollSingle docId => fetch (PollSingleK docId) st
      | PollBatch batchId docIds => fetch (PollBatchK batchId docIds) st
      | CompleteSingle docId => completeSingle docId st
      | CompleteBatch batchId docIds => completeBatch batchId docIds st
      | DeletePause => afterDeletePause st
      end
  end.

(** The rest of [uploadSingle] once its request has settled
    (lines 322-345 and 375-378). *)
Definition uploadSingle_resume (reply : Reply) (st : State) : option State :=
  match reply with
  | Threw msg => Some (resetUpload (alert ("Upload error: " +:+ msg) st))
  | HttpError error => Some (resetUpload (alert (or_default error "Upload failed") st))
  | Uploaded docId =>
      let '(a, st) := setInterval (AgentStepTick 0) 3000 st in
      let st := set_agentStepInterval (Some a) st in
      let '(p, st) := setInterval (PollSingle docId) 3000 st in
      Some (set_processingInterval (Some p) st)
  | _ => None
  end.

(** The rest of [uploadBatch] (lines 409-433 and 493-496). *)
Definition uploadBatch_resume (reply : Reply) (st : State) : option State :=
  match reply with
  | Threw msg => Some (resetUpload (alert ("Batch upload error: " +:+ msg) st))
  | HttpError error =>
      Some (resetUpload (alert (or_default error "Batch upload failed") st))
  | BatchUploaded batchId docIds =>
      let '(a, st) := setInterval (AgentStepTick 0) 5000 st in
      let st := set_agentStepInterval (Some a) st in
      let '(p, st) := setInterval (PollBatch batchId docIds) 5000 st in
      Some (set_processingInterval (Some p) st)
  | _ => None
  end.

(** The body of the single-document poll after its [await]s
    (lines 350-373).  The [catch (_) { }] swallows every exception,
    among them the TypeError of [sData.document.status] on a body
    without [document]. *)
Definition pollSingle_resume (docId : Z) (reply : Reply) (st : State) : State :=
  match reply with
  | DocumentStatus status =>
      if String.eqb status "completed" then
        let st := clearInterval (processingInterval st) st in
        let st := clearInterval (agentStepInterval st) st in
        setTimeout (CompleteSingle docId) 1200 st
      else if String.eqb status "failed" then
        let st := clearInterval (processingInterval st) st in
        let st := clearInterval (agentStepInterval st) st in
        let st := alert "Analysis failed. Please try again." st in
        resetUpload st
      else st
  | _ => st
  end.

(** The body of the batch poll (lines 437-491). *)
Definition pollBatch_resume (batchId : Z) (docIds : list Z) (reply : Reply)
    (st : State) : State :=
  match reply with
  | BatchStatus status _ =>
      if String.eqb status "completed" then
        let st := clearInterval (processingInterval st) st in
        let st := clearInterval (agentStepInterval st) st in
        setTimeout (CompleteBatch batchId docIds) 2000 st
      else if String.eqb status "failed" then
        let st := clearInterval (processingInterval st) st in
        let st := clearInterval (agentStepInterval st) st in
        let st := alert "Batch analysis failed. Please try again." st in
        resetUpload st
      else st
  | _ => st
  end.

(** The rest of [deleteDocument] (lines 1685-1712) up to its pause.
    The two timeouts that animate the progress bar of the card only
    write to the DOM and are left out. *)
Definition deleteDocument_resume (reply : Reply) (st : State) : option State :=
  match reply with
  | Deleted => Some (setTimeout DeletePause 600 st)
  | HttpError error => Some (alert (or_default error "Delete failed") st)
  | Threw msg =>
      Some (alert "Failed to delete document" (emit (ConsoleError "Delete error") st))
  | _ => None
  end.

(** The rest of [deleteHistoryItem] (lines 609-618). *)
Definition deleteHistoryItem_resume (reply : Reply) (st : State) : option State :=
  match reply with
  | Deleted => Some (emit (LoadPage "history") st)
  | HttpError error =>
      Some (alert ("Failed to delete: " +:+ or_default error "Unknown error") st)
  | Threw msg => Some (alert ("Error: " +:+ msg) st)
  | _ => None
  end.

(** The rest of [openBatchFromHistory] (lines 624-636). *)
Definition openBatchFromHistory_resume (batchId : Z) (reply : Reply)
    (st : State) : option State :=
  match reply with
  | HttpError _ => Some (alert "Failed to load batch" st)
  | BatchStatus _ [] => Some (alert "No documents in this batch" st)
  | BatchStatus _ (d :: ds) =>
      Some (navigateTo "analysis" (Some d)
              (set_batch (Some batchId) (d :: ds) st))
  | Threw msg => Some (alert ("Error loading batch: " +:+ msg) st)
  | _ => None
  end.

(** The rest of [fetchLatestDocForAnalysis] (lines 276-284). *)
Definition fetchLatest_resume (reply : Reply) (st : State) : option State :=
  match reply with
  | DocumentList documents =>
      match List.filter (λ d, String.eqb (row_status d) "completed"
                                && row_has_analysis d) documents with
      | d :: _ => Some (loadAnalysis (row_id d) None st)
      | [] => Some st
      end
  | Threw msg =>
      Some (emit (ConsoleError "Failed to fetch latest doc for analysis:") st)
  | _ => None
  end.

Definition resume (k : Pending) (reply : Reply) (st : State) : option State :=
  match k with
  | UploadSingleK => uploadSingle_resume reply st
  | UploadBatchK => uploadBatch_resume reply st
  | PollSingleK docId => Some (pollSingle_resume docId reply st)
  | PollBatchK batchId docIds => Some (pollBatch_resume batchId docIds reply st)
  | DeleteDocumentK _ => deleteDocument_resume reply st
  | DeleteHistoryK _ _ => deleteHistoryItem_resume reply st
  | OpenBatchK batchId => openBatchFromHistory_resume batchId reply st
  | FetchLatestK => fetchLatest_resume reply st
  end.

(** The reply to request [req] arrives and the suspended function
    runs on.  A reply of a shape the endpoint never produces is not
    delivered. *)
Definition settle (req : positive) (reply : Reply) (st : State) : State :=
  match inflight st !! req with
  | None => st
  | Some k =>
      match resume k reply
              (set_wire (wire st ++ [Settled req k reply])
                 (set_inflight (delete req (inflight st)) st)) with
      | Some st' => st'
      | None => st
      end
  end.

(** ** The event loop *)

Inductive Event :=
| Navigate (page : string) (docId : option Z)
| UploadSingle
| UploadBatch
| DeleteDocument (docId : Z) (confirmed : bool)
| DeleteHistoryItem (type : string) (realId : Z) (confirmed : bool)
| OpenBatchFromHistory (batchId : Z)
| Fires (h : positive)
| Replies (req : positive) (reply : Reply).

Definition step (e : Event) (st : State) : State :=
  match e with
  | Navigate page docId => navigateTo page docId st
  | UploadSingle => uploadSingle st
  | UploadBatch => uploadBatch st
  | DeleteDocument docId confirmed => deleteDocument docId confirmed st
  | DeleteHistoryItem type realId confirmed =>
      deleteHistoryItem type realId confirmed st
  | OpenBatchFromHistory batchId => openBatchFromHistory batchId st
  | Fires h => fire h st
  | Replies req reply => settle req reply st
  end.

Definition run (evs : list Event) (st : State) : State :=
  foldl (λ s e, step e s) st evs.

(** ** Reading states and traces *)

Definition batchContext (st : State) : option Z * list Z :=
  (currentBatchId st, currentBatchDocIds st).

Definition isPollTask (t : Task) : bool :=
  match t with
  | PollSingle _ | PollBatch _ _ => true
  | _ => false
  end.

Definition isPoll (k : Pending) : bool :=
  match k with
  | PollSingleK _ | PollBatchK _ _ => true
  | _ => false
  end.

Definition isUpload (k : Pending) : bool :=
  match k with
  | UploadSingleK | UploadBatchK => true
  | _ => false
  end.

Definition isSubmission (e : Event) : bool :=
  match e with
  | UploadSingle | UploadBatch => true
  | _ => false
  end.

Definition terminalStatus (s : string) : bool :=
  String.eqb s "completed" || String.eqb s "failed".

(** The replies on which a poll runs one of its two terminal branches. *)
Definition terminalReply (k : Pending) (reply : Reply) : bool :=
  match k, reply with
  | PollSingleK _, DocumentStatus s => terminalStatus s
  | PollBatchK _ _, BatchStatus s _ => terminalStatus s
  | _, _ => false
  end.

Definition samePending (k1 k2 : Pending) : bool :=
  match k1, k2 with
  | PollSingleK a, PollSingleK b => Z.eqb a b
  | PollBatchK a _, PollBatchK b _ => Z.eqb a b
  | _, _ => false
  end.

(** How often a terminal branch of a poll has run, over all jobs and
    for the job polled by [k]. *)
Definition terminalCount (w : list Wire) : nat :=
  length (List.filter (λ x, match x with
                            | Settled _ k r => terminalReply k r
                            | Sent _ _ => false
                            end) w).

Definition terminalCountOf (k : Pending) (w : list Wire) : nat :=
  length (List.filter (λ x, match x with
                            | Settled _ k' r => samePending k k' && terminalReply k' r
                            | Sent _ _ => false
                            end) w).

(** Status queries sent and status replies processed. *)
Definition pollTraffic (w : list Wire) : nat :=
  length (List.filter (λ x, match x with
                            | Sent _ k | Settled _ k _ => isPoll k
                            end) w).

(** The status queries of the job polled by [k] that still await
    their reply. *)
Definition pendingPolls (k : Pending) (st : State) : nat :=
  size (filter (λ rk, samePending k rk.2 = true) (inflight st)).

(** Walks a wire trace with the list of status queries that are out;
    [false] as soon as a status query for a job is sent while an
    earlier one for the same job is still out. *)
Fixpoint overlapFree (out : list (positive * Pending)) (w : list Wire) : bool :=
  match w with
  | [] => true
  | Sent r k :: w' =>
      if isPoll k && existsb (λ o, samePending k o.2) out
      then false
      else overlapFree ((r, k) :: out) w'
  | Settled r _ _ :: w' =>
      overlapFree (List.filter (λ o, negb (Pos.eqb o.1 r)) out) w'
  end.

(** No poll timer is active and no upload or status request is out:
    nothing is left that could start or continue polling. *)
Definition quiet (st : State) : Prop :=
  (∀ h tm, timers st !! h = Some tm → isPollTask (task tm) = false) ∧
  (∀ r k, inflight st !! r = Some k → isPoll k || isUpload k = false).

(** [x] polls no more than [s] did: every poll timer and every upload
    or status request of [x] was already there in [s], and no status
    traffic has been added. *)
Definition calm (s x : State) : Prop :=
  (∀ h tm, timers x !! h = Some tm → isPollTask (task tm) = true →
           timers s !! h = Some tm) ∧
  (∀ r k, inflight x !! r = Some k → isPoll k || isUpload k = true →
          inflight s !! r = Some k) ∧
  terminalCount (wire x) = terminalCount (wire s) ∧
  pollTraffic (wire x) = pollTraffic (wire s).

(** The stage index of the animator running as timer [h]. *)
Definition animatorIndex (h : positive) (st : State) : option nat :=
  match timers st !! h with
  | Some tm => match task tm with AgentStepTick k => Some k | _ => None end
  | None => None
  end.

(** How the entry of one timer can change over time: it is removed,
    or left as it is, or it is the animator's and its stage index has
    moved up, by no more than to [n]. *)
Definition advanced (n : nat) (o o' : option Timer) : Prop :=
  o' = None ∨ o' = o ∨
  ∃ tm k k', o = Some tm ∧ task tm = AgentStepTick k ∧ (k ≤ k' ≤ n)%nat ∧
             o' = Some (mkTimer (repeat tm) (delay tm) (AgentStepTick k')).

(** [x] is a later state of [s] as far as the timers of [s] go. *)
Definition evolves (s x : State) : Prop :=
  (nextTimer s ≤ nextTimer x)%positive ∧
  agentSteps x = agentSteps s ∧
  ∀ h, (h < nextTimer s)%positive →
       advanced (agentSteps s) (timers s !! h) (timers x !! h).

Definition isAnimator (t : Task) : bool :=
  match t with
  | AgentStepTick _ => true
  | _ => false
  end.

(** Every active poll timer is the one [processingInterval] holds and
    every active animator the one [agentStepInterval] holds. *)
Definition owned (st : State) : Prop :=
  ∀ h tm, timers st !! h = Some tm →
          (isPollTask (task tm) = true → processingInterval st = Some h) ∧
          (isAnimator (task tm) = true → agentStepInterval st = Some h).

(** No poll timer and no animator is active. *)
Definition idle (st : State) : Prop :=
  ∀ h tm, timers st !! h = Some tm →
          isPollTask (task tm) = false ∧ isAnimator (task tm) = false.

(** Uploads do not overlap: an upload is accepted only while no poll
    timer and no animator of an earlier one is active. *)
Definition admissible (e : Event) (st : State) : Prop :=
  match e with
  | Replies _ (Uploaded _) | Replies _ (BatchUploaded _ _) => idle st
  | _ => True
  end.

Fixpoint oneAtATime (evs : list Event) (st : State) : Prop :=
  match evs with
  | [] => True
  | e :: evs' => admissible e st ∧ oneAtATime evs' (step e st)
  end.

(** Handle [h] has been handed out and is no longer active. *)
Definition stale (h : positive) (st : State) : Prop :=
  (h < nextTimer st)%positive ∧ timers st !! h = None.

(** The complete flow of a confirmed [deleteDocument] started in [st]:
    the call, the reply to its DELETE request, the end of its pause. *)
Definition deleteDocumentFlow (docId : Z) (st : State) : list Event :=
  [DeleteDocument docId true; Replies (nextRequest st) Deleted;
   Fires (nextTimer st)].

(** The complete flow of a confirmed [deleteHistoryItem]. *)
Definition deleteHistoryFlow (type : string) (realId : Z) (st : State)
    : list Event :=
  [DeleteHistoryItem type realId true; Replies (nextRequest st) Deleted].

(** ** Statements of the specification that the script does not satisfy *)

(** "For every job the terminal callback fires at most once." *)
Definition terminal_at_most_once : Prop :=
  ∀ n evs k, (terminalCountOf k (wire (run evs (initial n))) ≤ 1)%nat.

(** "After [resetUpload] returns no completion or failure processing
    runs, even for a reply that was in flight." *)
Definition teardown_suppresses_replies : Prop :=
  ∀ n evs1 evs2,
    forallb (λ e, negb (isSubmission e)) evs2 = true →
    terminalCount (wire (run evs2 (resetUpload (run evs1 (initial n)))))
    = terminalCount (wire (run evs1 (initial n))).

(** "Polls of one job never overlap." *)
Definition polls_never_overlap : Prop :=
  ∀ n evs, overlapFree [] (wire (run evs (initial n))) = true.

(** "After a delete has finished no poll timer bound to the deleted
    id is active." *)
Definition delete_tears_down_poller : Prop :=
  ∀ n evs docId h tm,
    let st := run evs (initial n) in
    timers (run (deleteDocumentFlow docId st) st) !! h = Some tm →
    task tm ≠ PollSingle docId.

(** ** Concrete runs *)

(** A single upload accepted as document 7 whose first status query
    is out; the animator is timer 1, the poll timer 2. *)
Definition pollingSingle : State :=
  run [UploadSingle; Replies 1 (Uploaded 7); Fires 2] (initial 8).

(** The same with a batch context left over from an earlier batch. *)
Definition failingSingle : State :=
  set_batch (Some 40) [41; 42] pollingSingle.

(** The same after the user has moved on to the documents page. *)
Definition pollingOnDocuments : State :=
  run [Navigate "documents" None] pollingSingle.

(** The state of Scenario A when the poll that will be answered
    'completed' is out: one upload accepted as document 7, three
    polls answered 'processing', the fourth awaiting its reply. *)
Definition scenarioA_polling : State :=
  run [UploadSingle; Replies 1 (Uploaded 7);
       Fires 2; Replies 2 (DocumentStatus "processing");
       Fires 1;
       Fires 2; Replies 3 (DocumentStatus "processing");
       Fires 2; Replies 4 (DocumentStatus "processing");
       Fires 2]
      (set_batch (Some 40) [41; 42] (initial 8)).

(** A batch upload accepted as batch 40 on a page with three agent
    steps; the animator is timer 1. *)
Definition animating : State :=
  run [UploadBatch; Replies 1 (BatchUploaded 40 [41; 42])] (initial 3).

(** The table of timers without the timer behind [v], if [v] is a handle. *)
Definition cancel (v : option positive) (m : gmap positive Timer)
    : gmap positive Timer :=
  match v with
  | Some h => delete h m
  | None => m
  end.

(** ** The list of selected files

    [handleFiles], the file list it fills, and the helpers
    [formatBytes], [escAttr] and [timeAgo].  Strings are sequences of
    bytes; the characters the code looks for ('.', the two quotes, the
    letters of the extensions) are ASCII, and a byte of a longer UTF-8
    sequence is never equal to one of them. *)

Record File := mkFile {
  file_name : string;
  file_size : Z      (* bytes *)
}.

(** [s.split(sep)] for a one-character separator: never empty. *)
Fixpoint split (sep : ascii) (s : string) : list string :=
  match s with
  | EmptyString => [EmptyString]
  | String c s' =>
      if Ascii.eqb c sep then EmptyString :: split sep s'
      else match split sep s' with
           | seg :: segs => String c seg :: segs
           | [] => [String c EmptyString]
           end
  end.

(** [a.pop()] as a value: the last element. *)
Definition pop (l : list string) : string := List.last l EmptyString.

Definition lowerChar (c : ascii) : ascii :=
  let n := nat_of_ascii c in
  if (65 <=? n)%nat && (n <=? 90)%nat then ascii_of_nat (n + 32) else c.

(** [s.toLowerCase()] on the ASCII letters. *)
Fixpoint toLowerCase (s : string) : string :=
  match s with
  | EmptyString => EmptyString
  | String c s' => String (lowerChar c) (toLowerCase s')
  end.

(** [s] contains no dot. *)
Fixpoint dotless (s : string) : bool :=
  match s with
  | EmptyString => true
  | String c s' => negb (Ascii.eqb c ".") && dotless s'
  end.

Definition validExts : list string :=
  ["pdf"; "docx"; "doc"; "txt"; "xlsx"; "xls"; "csv"].

Definition extension (name : string) : string :=
  toLowerCase (pop (split "." name)).

Definition validExt (name : string) : bool :=
  existsb (String.eqb (extension name)) validExts.

Definition maxFileSize : Z := 16 * 1024 * 1024.

Definition hasName (name : string) (files : list File) : bool :=
  existsb (λ f, String.eqb (file_name f) name) files.

(** The loop of [handleFiles] (lines 200-219) over the files still to
    look at, with [selectedFiles] and the alerts raised so far.
    [continue] goes on with the rest, [break] returns. *)
Fixpoint handleFiles (files : list File) (selectedFiles : list File)
    (alerts : list Effect) : list File * list Effect :=
  match files with
  | [] => (selectedFiles, alerts)
  | file :: rest =>
      if negb (validExt (file_name file)) then
        handleFiles rest selectedFiles
          (alerts ++ [Alert ("Unsupported format: " +:+ file_name file +:+
                             ". Use PDF, DOCX, DOC, XLSX, CSV, or TXT.")])
      else if Z.ltb maxFileSize (file_size file) then
        handleFiles rest selectedFiles
          (alerts ++ [Alert ("File too large: " +:+ file_name file +:+
                             ". Max 16 MB.")])
      else if (10 <=? length selectedFiles)%nat then
        (selectedFiles, alerts ++ [Alert "Maximum 10 files per batch."])
      else if hasName (file_name file) selectedFiles then
        handleFiles rest selectedFiles alerts
      else
        handleFiles rest (selectedFiles ++ [file]) alerts
  end.

Definition fileNames (files : list File) : list string := map file_name files.

Definition acceptable (file : File) : Prop :=
  validExt (file_name file) = true ∧ (file_size file ≤ maxFileSize)%Z.

(** [x.toFixed(1)] for the quotient [num / den] of two integers, [den]
    a power of two: the quotient is then exact as a double and
    [toFixed] rounds its exact value to tenths, the larger one on a
    tie. *)
Definition toFixed1 (num den : Z) : string :=
  let tenths := (20 * num + den) / (2 * den) in
  pretty (tenths / 10) +:+ "." +:+ pretty (tenths mod 10).

(** [formatBytes] (lines 2322-2327) on an integer number of bytes. *)
Definition formatBytes (bytes : Z) : string :=
  if Z.eqb bytes 0 then EmptyString
  else if Z.ltb bytes 1024 then pretty bytes +:+ " B"
  else if Z.ltb bytes (1024 * 1024) then toFixed1 bytes 1024 +:+ " KB"
  else toFixed1 bytes (1024 * 1024) +:+ " MB".

Definition apostrophe : ascii := "039"%char.
Definition quote : ascii := "034"%char.
Definition backslash : ascii := "092"%char.

(** [s.replace(/c/g, r)] for a single character [c]. *)
Fixpoint replaceAll (c : ascii) (r : string) (s : string) : string :=
  match s with
  | EmptyString => EmptyString
  | String a s' =>
      if Ascii.eqb a c then r +:+ replaceAll c r s'
      else String a (replaceAll c r s')
  end.

(** [escAttr] (lines 2312-2314); [None] is a missing value. *)
Definition escAttr (str : option string) : string :=
  replaceAll quote (String backslash (String quote EmptyString))
    (replaceAll apostrophe (String backslash (String apostrophe EmptyString))
       (default EmptyString str)).

Definition isQuote (c : ascii) : bool :=
  Ascii.eqb c apostrophe || Ascii.eqb c quote.

(** Every quote of [s] comes right after a backslash; [prev] says
    whether the character before [s] is one. *)
Fixpoint quotesEscaped (prev : bool) (s : string) : bool :=
  match s with
  | EmptyString => true
  | String a s' =>
      (negb (isQuote a) || prev) && quotesEscaped (Ascii.eqb a backslash) s'
  end.

Fixpoint countQuotes (s : string) : nat :=
  match s with
  | EmptyString => 0
  | String a s' => ((if isQuote a then 1 else 0) + countQuotes s')%nat
  end.

(** [timeAgo] (lines 2522-2529) for the two time values in
    milliseconds; [localeDate] stands for [date.toLocaleDateString()]. *)
Definition timeAgo (now date : Z) (localeDate : string) : string :=
  let seconds := (now - date) / 1000 in
  if Z.ltb seconds 60 then "Just now"
  else if Z.ltb seconds 3600 then pretty (seconds / 60) +:+ "m ago"
  else if Z.ltb seconds 86400 then pretty (seconds / 3600) +:+ "h ago"
  else if Z.ltb seconds 604800 then pretty (seconds / 86400) +:+ "d ago"
  else localeDate.

(** A single upload whose request is out. *)
Definition uploading : State := run [UploadSingle] (initial 8).

(** A batch upload accepted as batch 40 whose first status query is
    out. *)
Definition pollingBatch : State :=
  run [UploadBatch; Replies 1 (BatchUploaded 40 [41; 42]); Fires 2] (initial 8).

(** The analysis view of document 7 is open. *)
Definition viewingDocument : State :=
  run [Navigate "analysis" (Some 7)] (initial 8).

(** A single upload accepted as document 7 with one poll answered
    and the next one out. *)
Definition scenarioA_polling_fresh : State :=
  run [UploadSingle; Replies 1 (Uploaded 7);
       Fires 2; Replies 2 (DocumentStatus "processing");
       Fires 1; Fires 2] (initial 8).

(** The rows [fetchLatestDocForAnalysis] keeps (line 277). *)
Definition readyRows (documents : list DocumentRow) : list DocumentRow :=
  List.filter (λ d, String.eqb (row_status d) "completed" && row_has_analysis d)
    documents.

(** A batch has been reopened while the request of
    [fetchLatestDocForAnalysis] (request 1) was still out. *)
Definition latestPending : State :=
  run [Navigate "analysis" None; OpenBatchFromHistory 40;
       Replies 2 (BatchStatus "completed" [41; 42])] (initial 8).

(** A poll timer that neither handle refers to any more. *)
Definition orphaned (h : positive) (tm : Timer) (st : State) : Prop :=
  timers st !! h = Some tm ∧ repeat tm = true ∧ isPollTask (task tm) = true ∧
  (h < nextTimer st)%positive ∧
  processingInterval st ≠ Some h ∧ agentStepInterval st ≠ Some h.

(** Two uploads accepted one after the other with the first still
    polling: the timers 1 and 2 of the first are no longer held. *)
Definition overlappingUploads : State :=
  run [UploadSingle; Replies 1 (Uploaded 7);
       UploadSingle; Replies 2 (Uploaded 8)] (initial 8).

(** ** Well-formed states

    Handles and request numbers are handed out in increasing order, so
    everything the state refers to lies below the two counters. *)

Record wf (st : State) : Prop := mkWf {
  wf_timers : ∀ h tm, timers st !! h = Some tm → (h < nextTimer st)%positive;
  wf_processing : ∀ h, processingInterval st = Some h → (h < nextTimer st)%positive;
  wf_agent : ∀ h, agentStepInterval st = Some h → (h < nextTimer st)%positive;
  wf_inflight : ∀ r k, inflight st !! r = Some k → (r < nextRequest st)%positive
}.

Ltac wf_tac :=
  repeat match goal with
  | H : wf _ |- _ => destruct H
  | |- wf _ => constructor; simpl; intros
  | H : <[_:=_]> _ !! _ = Some _ |- _ =>
      apply lookup_insert_Some in H as [[<- <-]|[? H]]
  | H : delete _ _ !! _ = Some _ |- _ =>
      apply lookup_delete_Some in H as [? H]
  | H : alter _ _ _ !! _ = Some _ |- _ =>
      apply lookup_alter_Some in H as [(? & ? & H & ?)|[? H]]
  | H : Some _ = Some _ |- _ => injection H as <-
  | H : None = Some _ |- _ => discriminate H
  | H : ∀ h tm, ?m !! h = Some tm → _, H1 : ?m !! _ = Some _ |- _ =>
      apply H in H1
  | H : ∀ h, ?v = Some h → _, H1 : ?v = Some _ |- _ =>
      apply H in H1
  end; simpl in *; try lia.

Lemma wf_initial n : wf (initial n).
Proof. constructor; simpl; intros; simplify_map_eq. Qed.

Lemma wf_frame st st' :
  timers st' = timers st → nextTimer st' = nextTimer st →
  processingInterval st' = processingInterval st →
  agentStepInterval st' = agentStepInterval st →
  inflight st' = inflight st → nextRequest st' = nextRequest st →
  wf st → wf st'.
Proof.
  intros Ht Hn Hp Ha Hi Hr [H1 H2 H3 H4].
  constructor; rewrite ?Ht, ?Hn, ?Hp, ?Ha, ?Hi, ?Hr; assumption.
Qed.

Lemma wf_emit e st : wf st → wf (emit e st).
Proof. by apply wf_frame. Qed.

Lemma wf_set_currentPage v st : wf st → wf (set_currentPage v st).
Proof. by apply wf_frame. Qed.

Lemma wf_set_currentDocId v st : wf st → wf (set_currentDocId v st).
Proof. by apply wf_frame. Qed.

Lemma wf_set_batch b ids st : wf st → wf (set_batch b ids st).
Proof. by apply wf_frame. Qed.

Lemma wf_clearInterval v st : wf st → wf (clearInterval v st).
Proof. intros H. destruct v; simpl; [|done]. wf_tac. Qed.

Lemma wf_setTimeout t ms st : wf st → wf (setTimeout t ms st).
Proof. intros H. unfold setTimeout. wf_tac. Qed.

Lemma wf_fetch k st : wf st → wf (fetch k st).
Proof. intros H. unfold fetch. wf_tac. Qed.

Lemma wf_resetUpload st : wf st → wf (resetUpload st).
Proof.
  intros H. unfold resetUpload.
  destruct (processingInterval st) eqn:Hp; destruct (agentStepInterval st) eqn:Ha;
    simpl; rewrite ?Ha; simpl; wf_tac.
Qed.

Lemma wf_loadAnalysis d b st : wf st → wf (loadAnalysis d b st).
Proof. intros H. by apply wf_emit, wf_set_currentDocId. Qed.

Lemma wf_clearStaleBatch d st : wf st → wf (clearStaleBatch d st).
Proof. intros H. unfold clearStaleBatch. case_match; [by apply wf_set_batch|done]. Qed.

Create HintDb wf discriminated.
#[local] Hint Resolve wf_emit wf_set_currentPage wf_set_currentDocId wf_set_batch
  wf_clearInterval wf_setTimeout wf_fetch wf_resetUpload wf_loadAnalysis
  wf_clearStaleBatch : wf.

Lemma wf_navigateTo page docId st : wf st → wf (navigateTo page docId st).
Proof.
  intros H. unfold navigateTo, fetchLatestDocForAnalysis, alert.
  repeat case_match; auto 10 with wf.
Qed.
#[local] Hint Resolve wf_navigateTo : wf.

Lemma wf_fire h st : wf st → wf (fire h st).
Proof.
  intros H. unfold fire.
  destruct (timers st !! h) as [tm|] eqn:Hh; [|done].
  assert (wf (if repeat tm then st else set_timers (delete h (timers st)) st)) as H'.
  { destruct (repeat tm); [done|]. wf_tac. }
  destruct (task tm);
    unfold agentStepTick, completeSingle, completeBatch, afterDeletePause;
    repeat case_match; auto 10 with wf.
  (* the animator writes its own slot back *)
  all: destruct (repeat tm); simpl in *; wf_tac.
Qed.

Lemma wf_resume k reply st st' : wf st → resume k reply st = Some st' → wf st'.
Proof.
  intros H Hr. destruct k; simpl in Hr;
    unfold uploadSingle_resume, uploadBatch_resume, pollSingle_resume,
      pollBatch_resume, deleteDocument_resume, deleteHistoryItem_resume,
      openBatchFromHistory_resume, fetchLatest_resume, alert, setInterval in Hr;
    simpl in Hr; repeat case_match; simplify_eq; auto 10 with wf; wf_tac.
Qed.

Lemma wf_settle req reply st : wf st → wf (settle req reply st).
Proof.
  intros H. unfold settle.
  destruct (inflight st !! req) as [k|] eqn:Hk; [|done].
  case_match eqn:Hr; [|done].
  eapply wf_resume; [|exact Hr]. wf_tac.
Qed.

Lemma wf_step e st : wf st → wf (step e st).
Proof.
  intros H. destruct e; simpl;
    unfold uploadSingle, uploadBatch, deleteDocument, deleteHistoryItem,
      openBatchFromHistory;
    repeat case_match; auto using wf_fire, wf_settle with wf.
Qed.

Lemma wf_run evs st : wf st → wf (run evs st).
Proof.
  revert st. induction evs as [|e evs IH]; intros st H; simpl; [done|].
  apply IH, wf_step, H.
Qed.

(** ** Timers only ever fade or, for the animator, step forward *)

Lemma advanced_trans n o1 o2 o3 :
  advanced n o1 o2 → advanced n o2 o3 → advanced n o1 o3.
Proof.
  intros H12 [->|[->|(tm & k & k' & -> & Hk & Hle & ->)]];
    [by left|done|].
  destruct H12 as [?|[<-|(tm0 & k0 & k0' & -> & Hk0 & Hle0 & ?)]];
    [done| |].
  - right; right. by exists tm, k, k'.
  - simplify_eq. simpl in *. simplify_eq.
    right; right. exists tm0, k0, k'. repeat split; auto; lia.
Qed.

Lemma evolves_refl s : evolves s s.
Proof. repeat split; [lia|]. intros h _. right; by left. Qed.

Section Evolves.
Variable s : State.

Lemma evolves_frame x x' :
  timers x' = timers x → nextTimer x' = nextTimer x →
  agentSteps x' = agentSteps x →
  evolves s x → evolves s x'.
Proof. intros Ht Hn Ha (H1 & H2 & H3). unfold evolves. by rewrite Ht, Hn, Ha. Qed.

Lemma evolves_emit e x : evolves s x → evolves s (emit e x).
Proof. by apply evolves_frame. Qed.

Lemma evolves_set_currentPage v x : evolves s x → evolves s (set_currentPage v x).
Proof. by apply evolves_frame. Qed.

Lemma evolves_set_currentDocId v x : evolves s x → evolves s (set_currentDocId v x).
Proof. by apply evolves_frame. Qed.

Lemma evolves_set_batch b ids x : evolves s x → evolves s (set_batch b ids x).
Proof. by apply evolves_frame. Qed.

Lemma evolves_set_processingInterval v x :
  evolves s x → evolves s (set_processingInterval v x).
Proof. by apply evolves_frame. Qed.

Lemma evolves_set_agentStepInterval v x :
  evolves s x → evolves s (set_agentStepInterval v x).
Proof. by apply evolves_frame. Qed.

Lemma evolves_set_inflight v x : evolves s x → evolves s (set_inflight v x).
Proof. by apply evolves_frame. Qed.

Lemma evolves_set_wire v x : evolves s x → evolves s (set_wire v x).
Proof. by apply evolves_frame. Qed.

Lemma evolves_fetch k x : evolves s x → evolves s (fetch k x).
Proof. by apply evolves_frame. Qed.

Lemma evolves_delete h x :
  evolves s x → evolves s (set_timers (delete h (timers x)) x).
Proof.
  intros (H1 & H2 & H3). repeat split; simpl; [done..|].
  intros h' Hh'. destruct (decide (h = h')) as [->|Hne].
  - left. apply lookup_delete_eq.
  - rewrite lookup_delete_ne by done. by apply H3.
Qed.

Lemma evolves_clearInterval v x : evolves s x → evolves s (clearInterval v x).
Proof. destruct v; simpl; [apply evolves_delete|done]. Qed.

Lemma evolves_insert_fresh tm x :
  evolves s x →
  evolves s (set_nextTimer (Pos.succ (nextTimer x))
               (set_timers (<[nextTimer x := tm]> (timers x)) x)).
Proof.
  intros (H1 & H2 & H3). repeat split; simpl; [lia|done|].
  intros h Hh. rewrite lookup_insert_ne by lia. by apply H3.
Qed.

Lemma evolves_setTimeout t ms x : evolves s x → evolves s (setTimeout t ms x).
Proof. apply evolves_insert_fresh. Qed.

Lemma evolves_setInterval t ms x : evolves s x → evolves s (setInterval t ms x).2.
Proof. apply evolves_insert_fresh. Qed.

Lemma evolves_agentStepTick h k x :
  (∀ tm, timers x !! h = Some tm → task tm = AgentStepTick k) →
  evolves s x → evolves s (agentStepTick h k x).
Proof.
  intros Hk Hx. unfold agentStepTick.
  destruct (Nat.ltb_spec k (agentSteps x)) as [Hlt|Hge];
    [|by apply evolves_clearInterval].
  destruct Hx as (H1 & H2 & H3). repeat split; simpl; [done..|].
  intros h' Hh'. destruct (decide (h = h')) as [<-|Hne].
  - rewrite lookup_alter_eq.
    destruct (timers x !! h) as [tm|] eqn:Hx; simpl; [|by left].
    specialize (Hk tm eq_refl).
    destruct (H3 h Hh') as [?|[Hs|(tm0 & k0 & k0' & Hs & Hk0 & Hle & ?)]];
      [congruence| |]; right; right.
    + exists tm, k, (S k). rewrite <- H2. split_and!; auto; try lia.
      congruence.
    + simplify_eq. simpl in *. simplify_eq.
      exists tm0, k0, (S k). rewrite <- H2. split_and!; auto; try lia.
  - rewrite lookup_alter_ne by done. by apply H3.
Qed.
End Evolves.

Create HintDb evolves discriminated.
#[local] Hint Resolve evolves_emit evolves_set_currentPage evolves_set_currentDocId
  evolves_set_batch evolves_set_processingInterval evolves_set_agentStepInterval
  evolves_set_inflight evolves_set_wire evolves_fetch evolves_delete
  evolves_clearInterval evolves_setTimeout evolves_setInterval : evolves.

Lemma evolves_resetUpload s x : evolves s x → evolves s (resetUpload x).
Proof. intros H. unfold resetUpload. repeat case_match; auto 10 with evolves. Qed.
#[local] Hint Resolve evolves_resetUpload : evolves.

Lemma evolves_navigateTo s page docId x :
  evolves s x → evolves s (navigateTo page docId x).
Proof.
  intros H.
  unfold navigateTo, clearStaleBatch, loadAnalysis, fetchLatestDocForAnalysis.
  repeat case_match; auto 10 with evolves.
Qed.
#[local] Hint Resolve evolves_navigateTo : evolves.

Lemma evolves_fire s h x : evolves s x → evolves s (fire h x).
Proof.
  intros H. unfold fire.
  destruct (timers x !! h) as [tm|] eqn:Hh; [|done].
  destruct (task tm) eqn:Ht;
    unfold completeSingle, completeBatch, afterDeletePause;
    repeat case_match; auto 10 with evolves.
  all: apply evolves_agentStepTick; auto with evolves; simpl.
  - intros tm' ?. by simplify_eq.
  - intros tm'. by rewrite lookup_delete_eq.
Qed.

Lemma evolves_resume s k reply x x' :
  evolves s x → resume k reply x = Some x' → evolves s x'.
Proof.
  intros H Hr. destruct k; simpl in Hr;
    unfold uploadSingle_resume, uploadBatch_resume, pollSingle_resume,
      pollBatch_resume, deleteDocument_resume, deleteHistoryItem_resume,
      openBatchFromHistory_resume, fetchLatest_resume, loadAnalysis, alert in Hr;
    repeat case_match; simplify_eq; auto 10 with evolves.
  all: repeat match goal with
       | H : setInterval _ _ _ = _ |- _ => unfold setInterval in H; simplify_eq
       end; auto 10 with evolves.
  all: apply evolves_set_processingInterval, evolves_insert_fresh,
         evolves_set_agentStepInterval, evolves_insert_fresh, H.
Qed.

Lemma evolves_settle s req reply x : evolves s x → evolves s (settle req reply x).
Proof.
  intros H. unfold settle.
  destruct (inflight x !! req) as [k|] eqn:Hk; [|done].
  case_match eqn:Hr; [|done].
  eapply evolves_resume; [|exact Hr]. auto with evolves.
Qed.

Lemma evolves_step s e x : evolves s x → evolves s (step e x).
Proof.
  intros H. destruct e; simpl;
    unfold uploadSingle, uploadBatch, deleteDocument, deleteHistoryItem,
      openBatchFromHistory;
    repeat case_match; auto using evolves_fire, evolves_settle with evolves.
Qed.

Lemma evolves_run s evs x : evolves s x → evolves s (run evs x).
Proof.
  revert x. induction evs as [|e evs IH]; intros x H; simpl; [done|].
  apply IH, evolves_step, H.
Qed.

Lemma stale_run h evs st : stale h st → stale h (run evs st).
Proof.
  intros [Hlt Hnone].
  destruct (evolves_run st evs st (evolves_refl st)) as (Hn & _ & Hh).
  split; [lia|].
  destruct (Hh h Hlt) as [?|[?|(tm & ? & ? & ? & _)]]; congruence.
Qed.

Lemma fire_stale h st : stale h st → fire h st = st.
Proof. intros [_ H]. unfold fire. by rewrite H. Qed.

(** ** Once polling has stopped it stays stopped *)

Lemma terminalCount_snoc w e :
  terminalCount (w ++ [e]) =
  (terminalCount w +
   match e with
   | Settled _ k r => if terminalReply k r then 1 else 0
   | Sent _ _ => 0
   end)%nat.
Proof.
  unfold terminalCount. rewrite List.filter_app, length_app. simpl.
  destruct e; [done|]. by destruct (terminalReply k reply).
Qed.

Lemma pollTraffic_snoc w e :
  pollTraffic (w ++ [e]) =
  (pollTraffic w +
   match e with
   | Sent _ k | Settled _ k _ => if isPoll k then 1 else 0
   end)%nat.
Proof.
  unfold pollTraffic. rewrite List.filter_app, length_app. simpl.
  destruct e; by destruct (isPoll k).
Qed.

Lemma terminalReply_poll k reply : isPoll k = false → terminalReply k reply = false.
Proof. by destruct k. Qed.

Lemma calm_refl s : calm s s.
Proof. by repeat split. Qed.

Section Calm.
Variable s : State.

Lemma calm_frame x x' :
  timers x' = timers x → inflight x' = inflight x → wire x' = wire x →
  calm s x → calm s x'.
Proof. intros Ht Hi Hw H. unfold calm. by rewrite Ht, Hi, Hw. Qed.

Lemma calm_emit e x : calm s x → calm s (emit e x).
Proof. by apply calm_frame. Qed.

Lemma calm_set_currentPage v x : calm s x → calm s (set_currentPage v x).
Proof. by apply calm_frame. Qed.

Lemma calm_set_currentDocId v x : calm s x → calm s (set_currentDocId v x).
Proof. by apply calm_frame. Qed.

Lemma calm_set_batch b ids x : calm s x → calm s (set_batch b ids x).
Proof. by apply calm_frame. Qed.

Lemma calm_set_processingInterval v x :
  calm s x → calm s (set_processingInterval v x).
Proof. by apply calm_frame. Qed.

Lemma calm_set_agentStepInterval v x :
  calm s x → calm s (set_agentStepInterval v x).
Proof. by apply calm_frame. Qed.

Lemma calm_delete h x : calm s x → calm s (set_timers (delete h (timers x)) x).
Proof.
  intros (H1 & H2 & H3 & H4). repeat split; simpl; [|done..].
  intros h' tm [_ Hh']%lookup_delete_Some. by apply H1.
Qed.

Lemma calm_clearInterval v x : calm s x → calm s (clearInterval v x).
Proof. destruct v; simpl; [apply calm_delete|done]. Qed.

Lemma calm_setTimeout t ms x :
  isPollTask t = false → calm s x → calm s (setTimeout t ms x).
Proof.
  intros Ht (H1 & H2 & H3 & H4). repeat split; simpl; [|done..].
  intros h tm [[_ <-]|[_ Hh]]%lookup_insert_Some Hp; [simpl in Hp; congruence|].
  by apply H1.
Qed.

Lemma calm_agentStepTick h k x : calm s x → calm s (agentStepTick h k x).
Proof.
  intros H. unfold agentStepTick.
  case_match; [|by apply calm_clearInterval].
  destruct H as (H1 & H2 & H3 & H4). repeat split; simpl; [|done..].
  intros h' tm [(_ & tm0 & _ & ->)|[_ Hh]]%lookup_alter_Some Hp; [done|].
  by apply H1.
Qed.

Lemma calm_fetch k x :
  isPoll k || isUpload k = false → calm s x → calm s (fetch k x).
Proof.
  intros [Hk1 Hk2]%orb_false_iff (H1 & H2 & H3 & H4).
  repeat split; simpl; [done| | |].
  - intros r k' [[_ <-]|[_ Hr]]%lookup_insert_Some Hb;
      [rewrite Hk1, Hk2 in Hb; done|]. by apply H2.
  - by rewrite terminalCount_snoc, Nat.add_0_r.
  - by rewrite pollTraffic_snoc, Hk1, Nat.add_0_r.
Qed.

Lemma calm_settled req k reply x :
  isPoll k = false → calm s x →
  calm s (set_wire (wire x ++ [Settled req k reply])
            (set_inflight (delete req (inflight x)) x)).
Proof.
  intros Hk (H1 & H2 & H3 & H4). repeat split; simpl; [done| | |].
  - intros r k' [_ Hr]%lookup_delete_Some. by apply H2.
  - by rewrite terminalCount_snoc, terminalReply_poll, Nat.add_0_r.
  - by rewrite pollTraffic_snoc, Hk, Nat.add_0_r.
Qed.
End Calm.

Create HintDb calm discriminated.
#[local] Hint Resolve calm_emit calm_set_currentPage calm_set_currentDocId
  calm_set_batch calm_set_processingInterval calm_set_agentStepInterval
  calm_delete calm_clearInterval calm_agentStepTick : calm.
#[local] Hint Extern 1 (calm _ (setTimeout _ _ _)) =>
  apply calm_setTimeout; [reflexivity|] : calm.
#[local] Hint Extern 1 (calm _ (fetch _ _)) =>
  apply calm_fetch; [reflexivity|] : calm.

Lemma calm_resetUpload s x : calm s x → calm s (resetUpload x).
Proof. intros H. unfold resetUpload. repeat case_match; auto 10 with calm. Qed.
#[local] Hint Resolve calm_resetUpload : calm.

Lemma calm_navigateTo s page docId x :
  calm s x → calm s (navigateTo page docId x).
Proof.
  intros H.
  unfold navigateTo, clearStaleBatch, loadAnalysis, fetchLatestDocForAnalysis.
  repeat case_match; auto 10 with calm.
Qed.
#[local] Hint Resolve calm_navigateTo : calm.

Lemma calm_quiet s x : quiet s → calm s x → quiet x.
Proof.
  intros [Q1 Q2] (H1 & H2 & _). split.
  - intros h tm Hh. destruct (isPollTask (task tm)) eqn:Hp; [|done].
    rewrite <- Hp. eapply Q1, H1; eauto.
  - intros r k Hr. destruct (isPoll k || isUpload k) eqn:Hb; [|done].
    rewrite <- Hb. eapply Q2, H2; eauto.
Qed.

Lemma calm_fire s h x : quiet s → calm s x → calm s (fire h x).
Proof.
  intros Q H. unfold fire.
  destruct (timers x !! h) as [tm|] eqn:Hh; [|done].
  pose proof (proj1 (calm_quiet s x Q H) h tm Hh) as Hp.
  destruct (task tm) eqn:Ht; simpl in Hp; try discriminate;
    unfold completeSingle, completeBatch, afterDeletePause;
    repeat case_match; auto 10 with calm.
Qed.

Lemma calm_settle s req reply x : quiet s → calm s x → calm s (settle req reply x).
Proof.
  intros Q H. unfold settle.
  destruct (inflight x !! req) as [k|] eqn:Hk; [|done].
  pose proof (proj2 (calm_quiet s x Q H) req k Hk) as [Hp Hu]%orb_false_iff.
  case_match eqn:Hr; [|done].
  pose proof (calm_settled s req k reply x Hp H) as H'.
  destruct k; simpl in Hp, Hu; try discriminate; simpl in Hr;
    unfold deleteDocument_resume, deleteHistoryItem_resume,
      openBatchFromHistory_resume, fetchLatest_resume, loadAnalysis, alert in Hr;
    repeat case_match; simplify_eq; auto 10 with calm.
Qed.

Lemma calm_step s e x :
  isSubmission e = false → quiet s → calm s x → calm s (step e x).
Proof.
  intros He Q H. destruct e; simpl in *; try discriminate;
    unfold deleteDocument, deleteHistoryItem, openBatchFromHistory;
    repeat case_match; auto using calm_fire, calm_settle with calm.
Qed.

Lemma calm_run s evs x :
  forallb (λ e, negb (isSubmission e)) evs = true →
  quiet s → calm s x → calm s (run evs x).
Proof.
  intros Hevs Q. revert x Hevs.
  induction evs as [|e evs IH]; intros x Hevs H; simpl in *; [done|].
  apply andb_true_iff in Hevs as [He Hevs].
  apply IH; [done|]. apply calm_step; [by destruct (isSubmission e)|done..].
Qed.

(** ** Cancelling *)

Lemma lookup_cancel v (m : gmap positive Timer) i :
  cancel v m !! i = if decide (v = Some i) then None else m !! i.
Proof.
  destruct v as [h|]; [|by rewrite decide_False].
  simpl. destruct (decide (h = i)) as [->|Hne].
  - by rewrite decide_True, lookup_delete_eq.
  - rewrite decide_False by congruence. by apply lookup_delete_ne.
Qed.

Lemma cancel_twice a p (m : gmap positive Timer) :
  cancel a (cancel p (cancel a (cancel p m))) = cancel a (cancel p m).
Proof. apply map_eq. intros i. rewrite !lookup_cancel. by repeat case_decide. Qed.

Lemma resetUpload_timers x :
  timers (resetUpload x)
  = cancel (agentStepInterval x) (cancel (processingInterval x) (timers x)).
Proof. by destruct x as [? ? ? ? [?|] [?|] ? ? ? ? ? ? ?]. Qed.

(** ** With one upload at a time the two handles are the timers *)

Lemma owned_frame x x' :
  timers x' = timers x → processingInterval x' = processingInterval x →
  agentStepInterval x' = agentStepInterval x →
  owned x → owned x'.
Proof. intros Ht Hp Ha H. unfold owned. by rewrite Ht, Hp, Ha. Qed.

Lemma owned_emit e x : owned x → owned (emit e x).
Proof. by apply owned_frame. Qed.

Lemma owned_set_currentPage v x : owned x → owned (set_currentPage v x).
Proof. by apply owned_frame. Qed.

Lemma owned_set_currentDocId v x : owned x → owned (set_currentDocId v x).
Proof. by apply owned_frame. Qed.

Lemma owned_set_batch b ids x : owned x → owned (set_batch b ids x).
Proof. by apply owned_frame. Qed.

Lemma owned_fetch k x : owned x → owned (fetch k x).
Proof. by apply owned_frame. Qed.

Lemma owned_delete h x : owned x → owned (set_timers (delete h (timers x)) x).
Proof. intros H h' tm. simpl. intros [_ Hh']%lookup_delete_Some. by apply H. Qed.

Lemma owned_clearInterval v x : owned x → owned (clearInterval v x).
Proof. destruct v; simpl; [apply owned_delete|done]. Qed.

Lemma owned_setTimeout t ms x :
  isPollTask t = false → isAnimator t = false →
  owned x → owned (setTimeout t ms x).
Proof.
  intros Hp Ha H h tm. simpl.
  intros [[_ <-]|[_ Hh]]%lookup_insert_Some; simpl.
  - by rewrite Hp, Ha.
  - by apply H.
Qed.

Lemma owned_agentStepTick h k x :
  (∀ tm, timers x !! h = Some tm → isAnimator (task tm) = true) →
  owned x → owned (agentStepTick h k x).
Proof.
  intros Hk H. unfold agentStepTick.
  case_match; [|by apply owned_clearInterval].
  intros h' tm. simpl.
  intros [(<- & tm0 & Htm0 & ->)|[_ Hh]]%lookup_alter_Some; simpl.
  - split; [done|]. intros _. by apply (H h tm0 Htm0), Hk.
  - by apply H.
Qed.

Lemma idle_owned x : idle x → owned x.
Proof. intros H h tm Hh. destruct (H h tm Hh) as [-> ->]. done. Qed.

Lemma cancel_idle x h tm :
  owned x →
  cancel (agentStepInterval x) (cancel (processingInterval x) (timers x)) !! h
  = Some tm →
  isPollTask (task tm) = false ∧ isAnimator (task tm) = false.
Proof.
  intros H. rewrite !lookup_cancel. repeat case_decide; try done.
  intros Hh. destruct (H h tm Hh) as [Hp Ha].
  destruct (isPollTask (task tm)); [by specialize (Hp eq_refl)|].
  destruct (isAnimator (task tm)); [by specialize (Ha eq_refl)|done].
Qed.

Lemma resetUpload_idle x : owned x → idle (resetUpload x).
Proof. intros H h tm. rewrite resetUpload_timers. by apply cancel_idle. Qed.

Lemma owned_resetUpload x : owned x → owned (resetUpload x).
Proof. intros H. by apply idle_owned, resetUpload_idle. Qed.

Create HintDb owned discriminated.
#[local] Hint Resolve owned_emit owned_set_currentPage owned_set_currentDocId
  owned_set_batch owned_fetch owned_delete owned_clearInterval
  owned_resetUpload : owned.
#[local] Hint Extern 1 (owned (setTimeout _ _ _)) =>
  apply owned_setTimeout; [reflexivity|reflexivity|] : owned.

Lemma owned_navigateTo page docId x : owned x → owned (navigateTo page docId x).
Proof.
  intros H.
  unfold navigateTo, clearStaleBatch, loadAnalysis, fetchLatestDocForAnalysis.
  repeat case_match; auto 10 with owned.
Qed.
#[local] Hint Resolve owned_navigateTo : owned.

Lemma owned_fire h x : owned x → owned (fire h x).
Proof.
  intros H. unfold fire.
  destruct (timers x !! h) as [tm|] eqn:Hh; [|done].
  destruct (task tm) eqn:Ht;
    unfold completeSingle, completeBatch, afterDeletePause;
    repeat case_match; auto 10 with owned.
  all: apply owned_agentStepTick; auto with owned; simpl.
  - intros tm' ?. simplify_eq. by rewrite Ht.
  - intros tm'. by rewrite lookup_delete_eq.
Qed.

Lemma owned_started a p ms x :
  isAnimator a = true → isPollTask a = false →
  isPollTask p = true → isAnimator p = false →
  idle x →
  owned (set_processingInterval (Some (Pos.succ (nextTimer x)))
           (setInterval p ms
              (set_agentStepInterval (Some (nextTimer x))
                 (setInterval a ms x).2)).2).
Proof.
  intros Ha1 Ha2 Hp1 Hp2 H h tm. unfold setInterval. simpl.
  intros [[<- <-]|[? [[<- <-]|[? Hh]]%lookup_insert_Some]]%lookup_insert_Some; simpl.
  - by rewrite Hp2.
  - by rewrite Ha2.
  - by destruct (H h tm Hh) as [-> ->].
Qed.

Lemma owned_resume k reply x x' :
  admissible (Replies 1 reply) x →
  owned x → resume k reply x = Some x' → owned x'.
Proof.
  intros Hadm H Hr. destruct k; simpl in Hr;
    unfold uploadSingle_resume, uploadBatch_resume, pollSingle_resume,
      pollBatch_resume, deleteDocument_resume, deleteHistoryItem_resume,
      openBatchFromHistory_resume, fetchLatest_resume, loadAnalysis, alert,
      setInterval in Hr;
    destruct reply; simpl in Hr; simplify_eq; simpl in Hadm;
    repeat case_match; simplify_eq; auto 10 with owned.
  - by apply (owned_started (AgentStepTick 0) (PollSingle document_id) 3000 x).
  - by apply (owned_started (AgentStepTick 0) (PollBatch batch_id document_ids)
                5000 x).
Qed.

Lemma owned_settle req reply x :
  admissible (Replies req reply) x → owned x → owned (settle req reply x).
Proof.
  intros Hadm H. unfold settle.
  destruct (inflight x !! req) as [k|] eqn:Hk; [|done].
  case_match eqn:Hr; [|done].
  eapply owned_resume; [| |exact Hr].
  - by destruct reply.
  - by apply (owned_frame x).
Qed.

Lemma owned_step e x : admissible e x → owned x → owned (step e x).
Proof.
  intros Hadm H. destruct e;
    [by apply owned_navigateTo| | | | | |by apply owned_fire
    |by apply owned_settle];
    simpl; unfold uploadSingle, uploadBatch, deleteDocument, deleteHistoryItem,
      openBatchFromHistory; repeat case_match; auto with owned.
Qed.

Lemma owned_run evs x : oneAtATime evs x → owned x → owned (run evs x).
Proof.
  revert x. induction evs as [|e evs IH]; intros x Hevs H; simpl in *; [done|].
  destruct Hevs as [He Hevs]. by apply IH, owned_step.
Qed.

Lemma owned_initial n : owned (initial n).
Proof. intros h tm Hh. simpl in Hh. by rewrite lookup_empty in Hh. Qed.

(** ** Single-document completion *)

Lemma wf_scenarioA_polling : wf scenarioA_polling.
Proof. apply wf_run, wf_set_batch, wf_initial. Qed.

(** The 'completed' branch of the single poll, field by field. *)
Lemma pollSingle_completed_fields docId x :
  let x1 := pollSingle_resume docId (DocumentStatus "completed") x in
  timers x1 = <[nextTimer x := mkTimer false 1200 (CompleteSingle docId)]>
                (cancel (agentStepInterval x) (cancel (processingInterval x) (timers x))) ∧
  processingInterval x1 = processingInterval x ∧
  agentStepInterval x1 = agentStepInterval x ∧
  effects x1 = effects x ∧ batchContext x1 = batchContext x.
Proof. by destruct x as [? ? ? ? [?|] [?|] ? ? ? ? ? ? ?]. Qed.

(** The completion timeout of a single upload, field by field. *)
Lemma completeSingle_fields docId x :
  docId ≠ 0 →
  let x2 := completeSingle docId x in
  timers x2 = cancel (agentStepInterval x) (cancel (processingInterval x) (timers x)) ∧
  effects x2 = effects x ++ [LoadAnalysis docId None] ∧
  batchContext x2 = (None, []) ∧
  currentPage x2 = "analysis" ∧ currentDocId x2 = Some docId ∧
  processingInterval x2 = None ∧ agentStepInterval x2 = None.
Proof.
  intros Hd.
  assert (truthy (Some docId) = true) as Htr.
  { simpl. by apply negb_true_iff, Z.eqb_neq. }
  destruct x as [? ? ? ? [?|] [?|] ? ? ? ? ? ? ?];
    unfold completeSingle, navigateTo, if_truthy; rewrite Htr; done.
Qed.



(** ** Transport errors on a poll *)

(** C5. When the status query of an active poll, single or batch,
    fails with a transport error, the callback runs to its end and
    changes nothing: no terminal branch runs, nothing is shown to the
    user, both interval handles and every active timer stay as they
    are, and the next firing of the poll timer sends the next status
    query. *)
Theorem poll_error_is_swallowed st req k msg :
  inflight st !! req = Some k →
  isPoll k = true →
  let st' := step (Replies req (Threw msg)) st in
  st' = set_wire (wire st ++ [Settled req k (Threw msg)])
          (set_inflight (delete req (inflight st)) st) ∧
  timers st' = timers st ∧
  processingInterval st' = processingInterval st ∧
  agentStepInterval st' = agentStepInterval st ∧
  effects st' = effects st ∧
  terminalCount (wire st') = terminalCount (wire st) ∧
  ∀ h tm, timers st !! h = Some tm → repeat tm = true →
          isPollTask (task tm) = true →
          timers (step (Fires h) st') = timers st ∧
          ∃ k', isPoll k' = true ∧
                inflight (step (Fires h) st') !! nextRequest st = Some k'.
Proof.
  intros Hreq Hk st'.
  assert (st' = set_wire (wire st ++ [Settled req k (Threw msg)])
                  (set_inflight (delete req (inflight st)) st)) as E.
  { subst st'. simpl. unfold settle. rewrite Hreq.
    by destruct k; simpl in Hk; try discriminate. }
  rewrite E. simpl. split_and!; try done.
  - rewrite terminalCount_snoc. by destruct k; simpl; rewrite ?Nat.add_0_r.
  - intros h tm Hh Hrep Hp. unfold fire. simpl. rewrite Hh, Hrep.
    destruct (task tm); simpl in Hp; try discriminate; simpl;
      (split; [done|]); eexists; (split; [|apply lookup_insert_eq]); done.
Qed.

Lemma wf_pollingSingle : wf pollingSingle.
Proof. apply wf_run, wf_initial. Qed.

Lemma poll_error_is_swallowed_witness :
  timers (step (Replies 2 (Threw "Failed to fetch")) pollingSingle)
  = timers pollingSingle ∧
  effects (step (Replies 2 (Threw "Failed to fetch")) pollingSingle) = [].
Proof.
  destruct (poll_error_is_swallowed pollingSingle 2 (PollSingleK 7)
              "Failed to fetch" eq_refl eq_refl) as (_ & Ht & _ & _ & He & _).
  split; [exact Ht|exact He].
Defined.

(** ** The batch-membership check *)

Lemma includes_In l x : includes l x = true ↔ In x l.
Proof.
  unfold includes. rewrite existsb_exists. split.
  - intros (y & Hy & ->%Z.eqb_eq). done.
  - intros H. exists x. split; [done|apply Z.eqb_refl].
Qed.

(** C6. Opening the analysis view of document [docId] runs the
    membership check before the view is loaded: a document that is
    among the ids of the batch leaves the batch context as it is; with
    a batch active, the context is reset to empty exactly when the
    document is not among them; with no batch active the check changes
    nothing.  The view is then loaded with the batch id as the check
    left it. *)
Theorem navigateTo_batch_membership st docId :
  docId ≠ 0 →
  let st' := navigateTo "analysis" (Some docId) st in
  (In docId (currentBatchDocIds st) → batchContext st' = batchContext st) ∧
  (truthy (currentBatchId st) = true →
   (¬ In docId (currentBatchDocIds st) ↔ batchContext st' = (None, []))) ∧
  (truthy (currentBatchId st) = false → batchContext st' = batchContext st) ∧
  effects st' = effects st ++ [LoadAnalysis docId (currentBatchId st')].
Proof.
  intros Hd.
  assert (truthy (Some docId) = true) as Htr.
  { simpl. by apply negb_true_iff, Z.eqb_neq. }
  unfold navigateTo, if_truthy. rewrite Htr.
  unfold clearStaleBatch, loadAnalysis, batchContext. simpl.
  destruct (includes (currentBatchDocIds st) docId) eqn:Hin.
  - apply includes_In in Hin. rewrite andb_false_r. simpl.
    split_and!; try done.
    intros Hb. split; [done|]. intros [= Hnone _].
    rewrite Hnone in Hb. done.
  - assert (¬ In docId (currentBatchDocIds st)) as Hnin.
    { intros Hi%includes_In. congruence. }
    rewrite andb_true_r.
    destruct (truthy (currentBatchId st)) eqn:Hb; simpl; split_and!; done.
Qed.

Lemma navigateTo_batch_membership_witness :
  let st := set_batch (Some 5) [1; 2; 3] (initial 8) in
  batchContext (navigateTo "analysis" (Some 9) st) = (None, []) ∧
  batchContext (navigateTo "analysis" (Some 2) st) = (Some 5, [1; 2; 3]).
Proof.
  intros st. split.
  - destruct (navigateTo_batch_membership st 9 ltac:(lia)) as (_ & H & _).
    apply (H eq_refl). simpl. lia.
  - destruct (navigateTo_batch_membership st 2 ltac:(lia)) as (H & _).
    apply H. simpl. lia.
Defined.

(** ** Poll periods *)

(** C9. The poll timer of every single-document upload runs at a
    strictly shorter period than the poll timer of every batch
    upload. *)
Theorem single_poll_faster_than_batch st1 st2 docId batchId docIds :
  ∃ s1 s2 p1 p2 t1 t2,
    uploadSingle_resume (Uploaded docId) st1 = Some s1 ∧
    uploadBatch_resume (BatchUploaded batchId docIds) st2 = Some s2 ∧
    processingInterval s1 = Some p1 ∧ processingInterval s2 = Some p2 ∧
    timers s1 !! p1 = Some t1 ∧ timers s2 !! p2 = Some t2 ∧
    task t1 = PollSingle docId ∧ task t2 = PollBatch batchId docIds ∧
    repeat t1 = true ∧ repeat t2 = true ∧
    delay t1 < delay t2.
Proof.
  do 6 eexists. unfold uploadSingle_resume, uploadBatch_resume, setInterval.
  simpl. split_and!; try reflexivity.
  - apply lookup_insert_eq.
  - apply lookup_insert_eq.
  - reflexivity.
  - reflexivity.
  - reflexivity.
  - reflexivity.
  - simpl. lia.
Qed.

(** ** What a single-document upload does to the batch context *)

(** C10. Of everything a single-document upload can run, only the
    completion timeout writes the batch context, and it empties it.
    [resetUpload], the submission, the reply to the upload request
    whatever it is, the animator and poll ticks, and the reply to a
    status query whatever it is ('failed' included) leave
    [currentBatchId] and [currentBatchDocIds] as they are. *)
Theorem single_upload_batch_context_frame st :
  batchContext (resetUpload st) = batchContext st ∧
  batchContext (step (Navigate "upload" None) st) = batchContext st ∧
  batchContext (step UploadSingle st) = batchContext st ∧
  (∀ req reply,
     inflight st !! req = Some UploadSingleK →
     batchContext (step (Replies req reply) st) = batchContext st) ∧
  (∀ req docId reply,
     inflight st !! req = Some (PollSingleK docId) →
     batchContext (step (Replies req reply) st) = batchContext st) ∧
  (∀ h tm,
     timers st !! h = Some tm →
     match task tm with
     | AgentStepTick _ | PollSingle _ => True
     | _ => False
     end →
     batchContext (step (Fires h) st) = batchContext st) ∧
  (∀ h tm docId,
     timers st !! h = Some tm → task tm = CompleteSingle docId →
     batchContext (step (Fires h) st) = (None, [])).
Proof.
  destruct st as [pg cd cb cbs [pi|] [ai|] n tms nt fl nr eff w].
  all: unfold batchContext; split_and!; simpl.
  all: try done.
  all: try (unfold navigateTo, resetUpload; simpl; done).
  all: try (intros req reply Hreq; unfold settle; simpl; rewrite Hreq; simpl;
            unfold uploadSingle_resume, resetUpload, setInterval; simpl;
            destruct reply; simpl; done).
  all: try (intros req docId reply Hreq; unfold settle; simpl; rewrite Hreq; simpl;
            unfold pollSingle_resume, resetUpload; simpl;
            destruct reply; simpl; try done; by repeat (case_match; simpl)).
  all: try (intros h tm Hh Ht; unfold fire; simpl; rewrite Hh;
            destruct (task tm); try done; unfold agentStepTick; simpl;
            by repeat (case_match; simpl)).
  all: intros h tm docId Hh Ht; unfold fire; simpl; rewrite Hh, Ht;
    unfold completeSingle, navigateTo, resetUpload, clearStaleBatch, loadAnalysis,
      fetchLatestDocForAnalysis; simpl;
    by repeat (case_match; simpl).
Qed.

Lemma single_upload_batch_context_frame_witness :
  batchContext (step (Replies 2 (DocumentStatus "failed")) failingSingle)
  = (Some 40, [41; 42]) ∧
  effects (step (Replies 2 (DocumentStatus "failed")) failingSingle)
  = [Alert "Analysis failed. Please try again."].
Proof.
  destruct (single_upload_batch_context_frame failingSingle)
    as (_ & _ & _ & _ & H & _).
  split; [exact (H 2%positive 7 (DocumentStatus "failed") eq_refl)|reflexivity].
Defined.

(** ** Poll ticks do not wait for replies *)

(** C4 as the script has it.  A firing of the poll timer of a
    single-document upload sends one more status query at once,
    whatever is still awaiting its reply: the number of status
    queries of that document that are out goes up by one, and the
    timer stays active for its next firing. *)
Theorem poll_tick_does_not_wait st h ms docId :
  wf st →
  timers st !! h = Some (mkTimer true ms (PollSingle docId)) →
  let st' := step (Fires h) st in
  inflight st' = <[nextRequest st := PollSingleK docId]> (inflight st) ∧
  wire st' = wire st ++ [Sent (nextRequest st) (PollSingleK docId)] ∧
  timers st' = timers st ∧
  pendingPolls (PollSingleK docId) st'
  = S (pendingPolls (PollSingleK docId) st).
Proof.
  intros Hwf Hh st'.
  assert (st' = fetch (PollSingleK docId) st) as ->.
  { subst st'. simpl. unfold fire. by rewrite Hh. }
  assert (inflight st !! nextRequest st = None) as Hfresh.
  { apply eq_None_not_Some. intros [k Hk].
    apply (wf_inflight _ Hwf) in Hk. lia. }
  split_and!; try done.
  unfold pendingPolls, fetch. simpl.
  rewrite map_filter_insert_True by (simpl; apply Z.eqb_refl).
  apply map_size_insert_None, map_lookup_filter_None. by left.
Qed.

Lemma poll_tick_does_not_wait_witness :
  pendingPolls (PollSingleK 7) pollingSingle = 1%nat ∧
  pendingPolls (PollSingleK 7) (step (Fires 2) pollingSingle) = 2%nat.
Proof.
  split; [reflexivity|].
  destruct (poll_tick_does_not_wait pollingSingle 2 3000 7
              wf_pollingSingle eq_refl) as (_ & _ & _ & ->).
  reflexivity.
Defined.

(** The claim itself fails: two firings of the poll timer with no
    reply in between leave two status queries for document 7 out. *)
Lemma polls_never_overlap_counterexample : ¬ polls_never_overlap.
Proof.
  intros H.
  specialize (H 8%nat [UploadSingle; Replies 1 (Uploaded 7); Fires 2; Fires 2]).
  vm_compute in H. discriminate H.
Qed.

(** ** The progress animator *)

Lemma animator_ticks st h ms n :
  agentStepInterval st = Some h →
  timers st !! h = Some (mkTimer true ms (AgentStepTick 0)) →
  (n ≤ agentSteps st)%nat →
  timers (Nat.iter n (fire h) st) !! h = Some (mkTimer true ms (AgentStepTick n)) ∧
  agentStepInterval (Nat.iter n (fire h) st) = Some h ∧
  agentSteps (Nat.iter n (fire h) st) = agentSteps st.
Proof.
  intros Ha Hh. induction n as [|n IH]; intros Hn; [done|].
  destruct IH as (IH1 & IH2 & IH3); [lia|].
  rewrite Nat.iter_succ. unfold fire at 1 3 5. rewrite IH1. simpl.
  unfold agentStepTick. rewrite IH3.
  destruct (Nat.ltb_spec n (agentSteps st)); [|lia]. simpl.
  rewrite lookup_alter_eq, IH1. done.
Qed.

Lemma animator_stops st h ms j :
  agentStepInterval st = Some h →
  timers st !! h = Some (mkTimer true ms (AgentStepTick 0)) →
  timers (Nat.iter (S (agentSteps st) + j) (fire h) st) !! h = None.
Proof.
  intros Ha Hh.
  destruct (animator_ticks st h ms (agentSteps st) Ha Hh) as (H1 & H2 & H3); [lia|].
  induction j as [|j IH].
  - rewrite Nat.add_0_r, Nat.iter_succ.
    unfold fire at 1. rewrite H1. simpl. unfold agentStepTick. rewrite H3.
    rewrite Nat.ltb_irrefl, H2. simpl. apply lookup_delete_eq.
  - rewrite Nat.add_succ_r, Nat.iter_succ. unfold fire at 1. by rewrite IH.
Qed.


Lemma wf_animating : wf animating.
Proof. apply wf_run, wf_initial. Qed.


(** ** Teardown *)

Lemma resetUpload_stale st h :
  wf st →
  processingInterval st = Some h ∨ agentStepInterval st = Some h →
  stale h (resetUpload st).
Proof.
  intros Hwf Hh. split.
  - assert (nextTimer (resetUpload st) = nextTimer st) as ->.
    { by destruct st as [? ? ? ? [?|] [?|] ? ? ? ? ? ? ?]. }
    destruct Hh as [Hh|Hh]; [by apply (wf_processing _ Hwf)|by apply (wf_agent _ Hwf)].
  - unfold resetUpload.
    destruct (processingInterval st) as [p|] eqn:Hp,
             (agentStepInterval st) as [a|] eqn:Ha; simpl; rewrite ?Ha; simpl;
      destruct Hh as [Hh|Hh]; simplify_eq;
      try apply lookup_delete_eq.
    destruct (decide (h = a)) as [->|?]; [apply lookup_delete_eq|].
    rewrite lookup_delete_ne by done. apply lookup_delete_eq.
Qed.

(** C3 as the script has it.  [resetUpload] cancels the two interval
    timers and forgets their handles: from then on, whatever happens,
    those timers are not active and their firing does nothing.  It
    does not touch the requests that are out, and the reply to a
    status query that was out is processed when it arrives as if
    nothing had happened: 'completed' schedules the completion
    timeout, 'failed' raises the alert. *)
Theorem resetUpload_cancels_timers_not_replies st :
  wf st →
  let st' := resetUpload st in
  processingInterval st' = None ∧ agentStepInterval st' = None ∧
  inflight st' = inflight st ∧ effects st' = effects st ∧
  (∀ h evs,
     processingInterval st = Some h ∨ agentStepInterval st = Some h →
     timers (run evs st') !! h = None ∧
     step (Fires h) (run evs st') = run evs st') ∧
  (∀ req docId,
     inflight st !! req = Some (PollSingleK docId) →
     timers (step (Replies req (DocumentStatus "completed")) st') !! nextTimer st
     = Some (mkTimer false 1200 (CompleteSingle docId)) ∧
     terminalCount (wire (step (Replies req (DocumentStatus "completed")) st'))
     = S (terminalCount (wire st)) ∧
     effects (step (Replies req (DocumentStatus "failed")) st')
     = effects st ++ [Alert "Analysis failed. Please try again."]).
Proof.
  intros Hwf st'. split_and!.
  - subst st'. unfold resetUpload. by repeat case_match.
  - subst st'. unfold resetUpload. by repeat case_match.
  - subst st'. unfold resetUpload. by repeat case_match.
  - subst st'. unfold resetUpload. by repeat case_match.
  - intros h evs Hh.
    pose proof (stale_run h evs _ (resetUpload_stale st h Hwf Hh)) as Hs.
    split; [apply Hs|]. simpl. by apply fire_stale.
  - intros req docId Hreq. subst st'.
    destruct st as [pg cd cb cbs [pi|] [ai|] n tms nt fl nr eff w];
      simpl in *; unfold settle, resetUpload; simpl; rewrite Hreq; simpl;
      rewrite lookup_insert_eq, terminalCount_snoc; simpl;
      (split; [done|]); (split; [lia|done]).
Qed.

Lemma resetUpload_cancels_timers_not_replies_witness :
  timers (resetUpload pollingSingle) = ∅ ∧
  inflight (resetUpload pollingSingle) !! 2%positive = Some (PollSingleK 7) ∧
  timers (step (Replies 2 (DocumentStatus "completed")) (resetUpload pollingSingle))
    !! 3%positive = Some (mkTimer false 1200 (CompleteSingle 7)).
Proof.
  destruct (resetUpload_cancels_timers_not_replies pollingSingle wf_pollingSingle)
    as (_ & _ & _ & _ & _ & H).
  split; [reflexivity|]. split; [reflexivity|].
  exact (proj1 (H 2%positive 7 eq_refl)).
Defined.

(** The claim itself fails: a 'completed' reply that was out when
    [resetUpload] ran is processed afterwards. *)
Lemma teardown_suppresses_replies_counterexample : ¬ teardown_suppresses_replies.
Proof.
  intros H.
  specialize (H 8%nat [UploadSingle; Replies 1 (Uploaded 7); Fires 2]
                [Replies 2 (DocumentStatus "completed")] eq_refl).
  vm_compute in H. discriminate H.
Qed.

(** What the user sees of it: the analysis view opens after the
    upload view was torn down. *)
Example teardown_then_navigation :
  let st := run [Navigate "upload" None] pollingSingle in
  timers st = ∅ ∧ effects st = [] ∧
  effects (run [Replies 2 (DocumentStatus "completed"); Fires 3] st)
  = [LoadAnalysis 7 None].
Proof. by vm_compute. Qed.

(** ** Terminal replies *)

Lemma terminalStatus_cases s :
  terminalStatus s = true →
  String.eqb s "completed" = true ∨
  (String.eqb s "completed" = false ∧ String.eqb s "failed" = true).
Proof.
  unfold terminalStatus. destruct (String.eqb s "completed"); [by left|].
  simpl. intros ->. by right.
Qed.

(** The state a terminal reply to a poll leaves behind: the timers
    that remain are those of before, less the two held in
    [processingInterval] and [agentStepInterval], plus at most the
    completion timeout. *)
Lemma terminal_settle_fields st req k reply :
  inflight st !! req = Some k →
  terminalReply k reply = true →
  (∀ h tm, timers (settle req reply st) !! h = Some tm →
           (timers st !! h = Some tm ∧ processingInterval st ≠ Some h ∧
            agentStepInterval st ≠ Some h) ∨
           (h = nextTimer st ∧ isPollTask (task tm) = false)) ∧
  inflight (settle req reply st) = delete req (inflight st) ∧
  wire (settle req reply st) = wire st ++ [Settled req k reply].
Proof.
  intros Hreq Hterm. unfold settle. rewrite Hreq.
  destruct st as [pg cd cb cbs [pi|] [ai|] n tms nt fl nr eff w];
    (destruct k; try discriminate); (destruct reply; try discriminate);
    simpl in Hterm; apply terminalStatus_cases in Hterm as [E|[E1 E2]];
    simpl; unfold pollSingle_resume, pollBatch_resume, resetUpload;
    rewrite ?E, ?E1, ?E2; simpl.
  all: split_and!; try done.
  all: intros h tm Hlk;
    repeat match type of Hlk with
    | <[_:=_]> _ !! _ = Some _ =>
        apply lookup_insert_Some in Hlk as [[<- <-]|[? Hlk]]; [by right|]
    | delete _ _ !! _ = Some _ =>
        apply lookup_delete_Some in Hlk as [? Hlk]
    end.
  all: left; split_and!; [done|congruence..].
Qed.

(** C2 as the script has it.  A terminal reply to a poll cancels the
    timers held in [processingInterval] and [agentStepInterval]
    without any call from outside.  If at that moment it was the only
    upload or status request out and the poll timer in
    [processingInterval] was the only poll timer, polling is over:
    however the remaining timers and replies are delivered, and
    whatever the user does short of a new submission, no status query
    is sent or processed any more and the terminal branch has run
    once. *)
Theorem terminal_reply_stops_polling st req k reply hp :
  wf st →
  inflight st !! req = Some k →
  terminalReply k reply = true →
  processingInterval st = Some hp →
  (∀ h tm, timers st !! h = Some tm → isPollTask (task tm) = true → h = hp) →
  (∀ r k', inflight st !! r = Some k' → isPoll k' || isUpload k' = true → r = req) →
  let st1 := step (Replies req reply) st in
  timers st1 !! hp = None ∧
  (∀ ha, agentStepInterval st = Some ha → timers st1 !! ha = None) ∧
  terminalCount (wire st1) = S (terminalCount (wire st)) ∧
  ∀ evs, forallb (λ e, negb (isSubmission e)) evs = true →
         terminalCount (wire (run evs st1)) = S (terminalCount (wire st)) ∧
         pollTraffic (wire (run evs st1)) = pollTraffic (wire st1) ∧
         quiet (run evs st1).
Proof.
  intros Hwf Hreq Hterm Hp Hpoll Hout st1.
  destruct (terminal_settle_fields st req k reply Hreq Hterm) as (Ft & Fi & Fw).
  assert (∀ h, processingInterval st = Some h ∨ agentStepInterval st = Some h →
               timers st1 !! h = None) as Hgone.
  { intros h Hh. apply eq_None_not_Some. intros [tm Htm].
    apply Ft in Htm as [(_ & ? & ?)|[-> _]]; [by destruct Hh|].
    destruct Hh as [Hh|Hh]; [apply (wf_processing _ Hwf) in Hh|
                             apply (wf_agent _ Hwf) in Hh]; lia. }
  assert (terminalCount (wire st1) = S (terminalCount (wire st))) as H3.
  { subst st1. simpl. rewrite Fw, terminalCount_snoc, Hterm. lia. }
  assert (quiet st1) as Q.
  { split.
    - intros h tm Htm. apply Ft in Htm as [(Htm & Hnp & _)|[_ ?]]; [|done].
      destruct (isPollTask (task tm)) eqn:E; [|done].
      rewrite (Hpoll _ _ Htm E) in Hnp. done.
    - intros r k'. subst st1. simpl. rewrite Fi.
      intros [Hne Hr]%lookup_delete_Some.
      destruct (isPoll k' || isUpload k') eqn:Eb; [|done].
      specialize (Hout _ _ Hr Eb). congruence. }
  split_and!; [by apply Hgone; left|by intros ha Ha; apply Hgone; right|done|].
  intros evs Hevs.
  destruct (calm_run st1 evs st1 Hevs Q (calm_refl st1)) as (_ & _ & C3 & C4).
  split_and!; [congruence|done|].
  eapply calm_quiet; [exact Q|]. apply calm_run; [done..|apply calm_refl].
Qed.

Lemma pollingSingle_timers :
  timers pollingSingle
  = <[2%positive := mkTimer true 3000 (PollSingle 7)]>
      (<[1%positive := mkTimer true 3000 (AgentStepTick 0)]> ∅).
Proof. reflexivity. Qed.

Lemma pollingSingle_inflight :
  inflight pollingSingle
  = <[2%positive := PollSingleK 7]> (delete 1%positive (<[1%positive := UploadSingleK]> ∅)).
Proof. reflexivity. Qed.

Lemma terminal_reply_stops_polling_witness :
  let st1 := step (Replies 2 (DocumentStatus "failed")) pollingSingle in
  terminalCount (wire (run [Fires 2; Fires 1; Replies 2 (DocumentStatus "failed")] st1))
  = 1%nat.
Proof.
  intros st1.
  assert (∀ h tm, timers pollingSingle !! h = Some tm →
                  isPollTask (task tm) = true → h = 2%positive) as Hpoll.
  { intros h tm. rewrite pollingSingle_timers.
    intros [[<- <-]|[_ [[<- <-]|[_ H]]%lookup_insert_Some]]%lookup_insert_Some;
      [done|done|]. by rewrite lookup_empty in H. }
  assert (∀ r k', inflight pollingSingle !! r = Some k' →
                  isPoll k' || isUpload k' = true → r = 2%positive) as Hout.
  { intros r k'. rewrite pollingSingle_inflight.
    intros [[<- <-]|[_ [? [[<- <-]|[_ H]]%lookup_insert_Some]%lookup_delete_Some]]
      %lookup_insert_Some; [done|done|]. by rewrite lookup_empty in H. }
  destruct (terminal_reply_stops_polling pollingSingle 2 (PollSingleK 7)
              (DocumentStatus "failed") 2 wf_pollingSingle eq_refl eq_refl eq_refl
              Hpoll Hout) as (_ & _ & _ & H).
  exact (proj1 (H [Fires 2; Fires 1; Replies 2 (DocumentStatus "failed")] eq_refl)).
Defined.

(** The claim itself fails: with two status queries out, both
    answered 'completed', the terminal branch runs twice and the
    analysis view is loaded twice. *)
Lemma terminal_at_most_once_counterexample : ¬ terminal_at_most_once.
Proof.
  intros H.
  specialize (H 8%nat
                [UploadSingle; Replies 1 (Uploaded 7); Fires 2; Fires 2;
                 Replies 2 (DocumentStatus "completed");
                 Replies 3 (DocumentStatus "completed")]
                (PollSingleK 7)).
  vm_compute in H. lia.
Qed.

Example overlapping_completions_navigate_twice :
  effects (run [Fires 2; Replies 2 (DocumentStatus "completed");
                Replies 3 (DocumentStatus "completed"); Fires 3; Fires 4]
             pollingSingle)
  = [LoadAnalysis 7 None; LoadAnalysis 7 None].
Proof. by vm_compute. Qed.

(** ** Deleting *)

Lemma resetUpload_handles x :
  processingInterval (resetUpload x) = None ∧
  agentStepInterval (resetUpload x) = None.
Proof. by destruct x as [? ? ? ? [?|] [?|] ? ? ? ? ? ? ?]. Qed.

Lemma afterDeletePause_other x :
  currentPage x ≠ "upload" →
  timers (afterDeletePause x) = timers x ∧
  processingInterval (afterDeletePause x) = processingInterval x ∧
  agentStepInterval (afterDeletePause x) = agentStepInterval x.
Proof.
  intros Hpg%String.eqb_neq. unfold afterDeletePause.
  destruct (String.eqb (currentPage x) "analysis") eqn:E; [done|].
  unfold navigateTo.
  change (currentPage (set_currentPage (currentPage x) x)) with (currentPage x).
  rewrite Hpg, E. by repeat case_match.
Qed.

Lemma afterDeletePause_upload x :
  currentPage x = "upload" →
  afterDeletePause x = resetUpload (set_currentPage "upload" x).
Proof. intros Hpg. unfold afterDeletePause. by rewrite Hpg. Qed.

Lemma fire_timeout h tm x :
  timers x !! h = Some tm → repeat tm = false → task tm = DeletePause →
  fire h x = afterDeletePause (set_timers (delete h (timers x)) x).
Proof. intros Hh Hr Ht. unfold fire. by rewrite Hh, Hr, Ht. Qed.

Lemma settle_deleted req docId x :
  inflight x !! req = Some (DeleteDocumentK docId) →
  settle req Deleted x
  = setTimeout DeletePause 600
      (set_wire (wire x ++ [Settled req (DeleteDocumentK docId) Deleted])
         (set_inflight (delete req (inflight x)) x)).
Proof. intros Hreq. unfold settle. by rewrite Hreq. Qed.


Lemma wf_pollingOnDocuments : wf pollingOnDocuments.
Proof. apply wf_run, wf_pollingSingle. Qed.



(** The same for a batch deleted from the history page. *)
Example delete_batch_keeps_polling :
  let st := run [UploadBatch; Replies 1 (BatchUploaded 40 [41; 42]);
                 Navigate "history" None] (initial 8) in
  timers (run (deleteHistoryFlow "batch" 40 st) st) !! 2%positive
  = Some (mkTimer true 5000 (PollBatch 40 [41; 42])).
Proof. by vm_compute. Qed.

(** Scenario A of the specification, end to end. *)
Example scenarioA :
  let st := run [Replies 5 (DocumentStatus "completed"); Fires 3] scenarioA_polling in
  effects st = [LoadAnalysis 7 None] ∧ timers st = ∅ ∧
  batchContext st = (None, []) ∧ currentPage st = "analysis".
Proof. by vm_compute. Qed.

(** Every state reached from the initial one with one upload at a
    time has the two handles on the timers they stand for. *)
Lemma owned_reachable n evs :
  oneAtATime evs (initial n) → owned (run evs (initial n)).
Proof. intros H. by apply owned_run, owned_initial. Qed.

Example scenarioA_one_at_a_time : owned scenarioA_polling.
Proof.
  apply owned_run; [|by apply owned_set_batch, owned_initial].
  simpl. split_and!; done.
Qed.


(** ** Selecting files *)

Lemma handleFiles_extends files : ∀ sel al,
  ∃ added, (handleFiles files sel al).1 = sel ++ added ∧
           Forall (λ f, In f files ∧ acceptable f ∧
                        hasName (file_name f) sel = false) added.
Proof.
  induction files as [|file rest IH]; intros sel al; cbn [handleFiles].
  { exists []. split; [by rewrite app_nil_r|constructor]. }
  destruct (validExt (file_name file)) eqn:Hext; cbn [negb].
  2: { destruct (IH sel (al ++ [Alert ("Unsupported format: " +:+ file_name file +:+
                             ". Use PDF, DOCX, DOC, XLSX, CSV, or TXT.")]))
         as (added & -> & Hadd).
       exists added. split; [done|]. eapply Forall_impl; [exact Hadd|].
       intros f (? & ? & ?). split; [by apply in_cons|done]. }
  destruct (Z.ltb_spec maxFileSize (file_size file)) as [Hbig|Hsize].
  { destruct (IH sel (al ++ [Alert ("File too large: " +:+ file_name file +:+
                             ". Max 16 MB.")])) as (added & -> & Hadd).
    exists added. split; [done|]. eapply Forall_impl; [exact Hadd|].
    intros f (? & ? & ?). split; [by apply in_cons|done]. }
  destruct (10 <=? length sel)%nat.
  { exists []. split; [by rewrite app_nil_r|constructor]. }
  destruct (hasName (file_name file) sel) eqn:Hdup.
  { destruct (IH sel al) as (added & -> & Hadd).
    exists added. split; [done|]. eapply Forall_impl; [exact Hadd|].
    intros f (? & ? & ?). split; [by apply in_cons|done]. }
  destruct (IH (sel ++ [file]) al) as (added & -> & Hadd).
  exists (file :: added). split; [by rewrite <- app_assoc|].
  constructor; [split; [apply in_eq|]; split; [by split; [|lia]|done]|].
  eapply Forall_impl; [exact Hadd|].
  intros f (? & ? & Hn). split; [by apply in_cons|]. split; [done|].
  unfold hasName in *. rewrite existsb_app in Hn.
  by apply orb_false_iff in Hn as [-> _].
Qed.

(** X1. [handleFiles] never lets the selection grow past ten files:
    a selection of at most ten stays at most ten, whatever is
    dropped on it. *)
Theorem handleFiles_at_most_ten files : ∀ sel al,
  (length sel ≤ 10)%nat →
  (length (handleFiles files sel al).1 ≤ 10)%nat.
Proof.
  induction files as [|file rest IH]; intros sel al Hlen; cbn [handleFiles]; [done|].
  destruct (validExt (file_name file)); cbn [negb]; [|by apply IH].
  destruct (Z.ltb maxFileSize (file_size file)); [by apply IH|].
  destruct (Nat.leb_spec 10 (length sel)); [done|].
  destruct (hasName (file_name file) sel); [by apply IH|].
  apply IH. rewrite length_app. simpl. lia.
Qed.

Lemma handleFiles_at_most_ten_witness :
  (length (handleFiles (replicate 4 (mkFile "d.pdf" 1) ++
                        [mkFile "e.pdf" 1; mkFile "f.pdf" 1; mkFile "g.pdf" 1])
             (map (λ n, mkFile (pretty n +:+ ".txt") 1) (seqZ 0 9)) []).1 ≤ 10)%nat.
Proof. apply handleFiles_at_most_ten. vm_compute. lia. Defined.

Lemma hasName_In name files :
  hasName name files = true ↔ In name (fileNames files).
Proof.
  unfold hasName, fileNames. rewrite existsb_exists, in_map_iff. split.
  - intros (f & Hf & E%String.eqb_eq). eauto.
  - intros (f & <- & Hf). exists f. split; [done|apply String.eqb_refl].
Qed.

(** X2. [handleFiles] keeps the names of the selected files distinct:
    a file whose name is already selected is not added again. *)
Theorem handleFiles_names_unique files : ∀ sel al,
  NoDup (fileNames sel) →
  NoDup (fileNames (handleFiles files sel al).1).
Proof.
  induction files as [|file rest IH]; intros sel al Hnd; cbn [handleFiles]; [done|].
  destruct (validExt (file_name file)); cbn [negb]; [|by apply IH].
  destruct (Z.ltb maxFileSize (file_size file)); [by apply IH|].
  destruct (10 <=? length sel)%nat; [done|].
  destruct (hasName (file_name file) sel) eqn:Hdup; [by apply IH|].
  apply IH. unfold fileNames. rewrite map_app. simpl.
  apply NoDup_app. split; [done|]. split; [|apply NoDup_singleton].
  intros name Hin ->%list_elem_of_singleton.
  apply list_elem_of_In, hasName_In in Hin. congruence.
Qed.

Lemma handleFiles_names_unique_witness :
  NoDup (fileNames (handleFiles [mkFile "a.pdf" 1; mkFile "a.pdf" 2; mkFile "b.pdf" 3]
                      [mkFile "b.pdf" 9] []).1).
Proof.
  apply handleFiles_names_unique. simpl. apply NoDup_singleton.
Defined.

(** X3. [handleFiles] only appends: the files selected before stay
    where they are, and every file it adds comes from the dropped
    files, has one of the seven extensions, is at most 16 MiB and
    carries a name that was not selected before. *)
Theorem handleFiles_appends_acceptable files sel al :
  ∃ added,
    (handleFiles files sel al).1 = sel ++ added ∧
    Forall (λ f, In f files ∧ acceptable f ∧
                 ¬ In (file_name f) (fileNames sel)) added.
Proof.
  destruct (handleFiles_extends files sel al) as (added & E & H).
  exists added. split; [done|]. eapply Forall_impl; [exact H|].
  intros f (? & ? & Hn). split; [done|]. split; [done|].
  intros Hin%hasName_In. congruence.
Qed.

Lemma handleFiles_prefix files sel al f :
  In f sel → In f (handleFiles files sel al).1.
Proof.
  destruct (handleFiles_extends files sel al) as (added & -> & _).
  intros. apply in_or_app. by left.
Qed.

Lemma handleFiles_settled files : ∀ sel al big al',
  (∀ f, In f (handleFiles files sel al).1 → In (file_name f) (fileNames big)) →
  (length (handleFiles files sel al).1 ≤ length big)%nat →
  (handleFiles files big al').1 = big.
Proof.
  induction files as [|file rest IH]; intros sel al big al' Hnames Hlen;
    cbn [handleFiles] in *; [done|].
  destruct (validExt (file_name file)); cbn [negb] in *; [|by eapply IH].
  destruct (Z.ltb maxFileSize (file_size file)); [by eapply IH|].
  destruct (Nat.leb_spec 10 (length big)); [done|].
  destruct (Nat.leb_spec 10 (length sel)); [simpl in *; lia|].
  destruct (hasName (file_name file) sel) eqn:Hdup.
  - assert (hasName (file_name file) big = true) as ->.
    { apply hasName_In in Hdup. apply in_map_iff in Hdup as (f & Hf & Hin).
      rewrite <- Hf. apply hasName_In, Hnames. by apply handleFiles_prefix. }
    by eapply IH.
  - assert (hasName (file_name file) big = true) as ->.
    { apply hasName_In, Hnames, handleFiles_prefix, in_or_app. right. by left. }
    by eapply IH.
Qed.


Lemma split_nonempty sep s : split sep s ≠ [].
Proof.
  destruct s as [|c s]; simpl; [done|].
  destruct (Ascii.eqb c sep); [done|]. by destruct (split sep s).
Qed.

Lemma split_dotless s : dotless s = true → split "." s = [s].
Proof.
  induction s as [|c s IH]; simpl; [done|].
  intros [Hc Hs]%andb_true_iff. apply negb_true_iff in Hc.
  by rewrite Hc, IH.
Qed.

Lemma split_append base ext :
  dotless ext = true →
  ∃ seg segs, split "." (base +:+ String "." ext) = seg :: segs ++ [ext].
Proof.
  intros Hext. induction base as [|c base (seg & segs & IH)]; simpl.
  - exists EmptyString, []. by rewrite split_dotless.
  - rewrite IH. destruct (Ascii.eqb c ".").
    + by exists EmptyString, (seg :: segs).
    + by exists (String c seg), segs.
Qed.

Lemma pop_split_append base ext :
  dotless ext = true →
  pop (split "." (base +:+ "." +:+ ext)) = ext.
Proof.
  intros Hext. destruct (split_append base ext Hext) as (seg & segs & E).
  change ("." +:+ ext) with (String "." ext). rewrite E.
  unfold pop. by rewrite app_comm_cons, List.last_last.
Qed.

(** X5. Only what follows the last dot of a file name counts as its
    extension, whatever its case; a name without any dot is its own
    extension, so a file called just "PDF" passes the check. *)
Theorem extension_is_after_last_dot :
  (∀ base ext, dotless ext = true →
               extension (base +:+ "." +:+ ext) = toLowerCase ext) ∧
  (∀ name, dotless name = true → extension name = toLowerCase name).
Proof.
  split.
  - intros base ext Hext. unfold extension. by rewrite pop_split_append.
  - intros name Hname. unfold extension. by rewrite split_dotless.
Qed.

Lemma extension_is_after_last_dot_witness :
  extension "Q3.report.final.DocX" = "docx" ∧ validExt "PDF" = true.
Proof.
  split.
  - exact (proj1 extension_is_after_last_dot "Q3.report.final" "DocX" eq_refl).
  - unfold validExt.
    by rewrite (proj2 extension_is_after_last_dot "PDF" eq_refl).
Defined.

(** ** Formatting helpers *)

(** X6. For a size from 1 KiB up to but not including 1 MiB,
    [formatBytes] prints the number of KiB with exactly one decimal,
    rounded to the nearest tenth (half up): the tenths printed lie
    between 1.0 and 1024.0 and are within 0.05 KiB of the size.  The
    51 sizes just below 1 MiB therefore read "1024.0 KB", not
    "1.0 MB". *)
Theorem formatBytes_kilobytes b :
  (1024 ≤ b < 1048576)%Z →
  ∃ n, formatBytes b = (pretty (n / 10) +:+ "." +:+ pretty (n mod 10)) +:+ " KB" ∧
       (10 ≤ n ≤ 10240)%Z ∧
       (-512 ≤ 10 * b - 1024 * n < 512)%Z ∧
       ((1048525 ≤ b)%Z → formatBytes b = "1024.0 KB").
Proof.
  intros Hb. unfold formatBytes, toFixed1.
  destruct (Z.eqb_spec b 0) as [?|_]; [lia|].
  destruct (Z.ltb_spec b 1024) as [?|_]; [lia|].
  destruct (Z.ltb_spec b (1024 * 1024)) as [_|?]; [|lia].
  set (n := (20 * b + 1024) / (2 * 1024)).
  assert (2048 * n ≤ 20 * b + 1024 < 2048 * n + 2048)%Z as Hn.
  { subst n. change (2 * 1024) with 2048.
    pose proof (Z.div_mod (20 * b + 1024) 2048 ltac:(lia)).
    pose proof (Z.mod_pos_bound (20 * b + 1024) 2048 ltac:(lia)). lia. }
  exists n. split; [done|]. split; [lia|]. split; [lia|].
  intros Hhi. assert (n = 10240) as -> by lia. reflexivity.
Qed.

Lemma formatBytes_kilobytes_witness :
  formatBytes 1048570 = "1024.0 KB".
Proof.
  destruct (formatBytes_kilobytes 1048570 ltac:(lia)) as (n & _ & _ & _ & H).
  apply H. lia.
Defined.

Lemma escAttr_cons a s :
  escAttr (Some (String a s))
  = if Ascii.eqb a apostrophe
    then String backslash (String apostrophe (escAttr (Some s)))
    else if Ascii.eqb a quote
         then String backslash (String quote (escAttr (Some s)))
         else String a (escAttr (Some s)).
Proof.
  unfold escAttr.
  change (default EmptyString (Some (String a s))) with (String a s).
  change (default EmptyString (Some s)) with s.
  cbn [replaceAll].
  destruct (Ascii.eqb a apostrophe) eqn:Ha.
  - apply Ascii.eqb_eq in Ha as ->. reflexivity.
  - cbn [replaceAll]. destruct (Ascii.eqb a quote) eqn:Hq; reflexivity.
Qed.

Lemma quotesEscaped_escAttr s : ∀ prev,
  quotesEscaped prev (escAttr (Some s)) = true.
Proof.
  induction s as [|a s IH]; intros prev; [done|].
  rewrite escAttr_cons. unfold isQuote.
  destruct (Ascii.eqb a apostrophe) eqn:Ha; [cbn; apply IH|].
  destruct (Ascii.eqb a quote) eqn:Hq; [cbn; apply IH|].
  cbn [quotesEscaped]. unfold isQuote. rewrite Ha, Hq. simpl. apply IH.
Qed.

Lemma length_escAttr s :
  String.length (escAttr (Some s)) = (String.length s + countQuotes s)%nat.
Proof.
  induction s as [|a s IH]; [done|].
  rewrite escAttr_cons. cbn [countQuotes String.length]. unfold isQuote.
  destruct (Ascii.eqb a apostrophe) eqn:Ha;
    [cbn [String.length orb]; rewrite IH; lia|].
  destruct (Ascii.eqb a quote) eqn:Hq;
    [cbn [String.length orb]; rewrite IH; lia|].
  cbn [String.length orb]. rewrite IH. lia.
Qed.

(** X7. In the output of [escAttr] every apostrophe and every double
    quote comes right after a backslash, and nothing else is added:
    the output is longer than the input by the number of quotes in it.
    A missing value gives the empty string. *)
Theorem escAttr_escapes_every_quote str :
  quotesEscaped false (escAttr str) = true ∧
  String.length (escAttr str)
  = (String.length (default EmptyString str)
     + countQuotes (default EmptyString str))%nat ∧
  escAttr None = EmptyString.
Proof.
  destruct str as [s|]; [|done].
  split; [apply quotesEscaped_escAttr|]. split; [apply length_escAttr|done].
Qed.



(** ** Failure paths of an upload *)

Lemma resetUpload_keeps x :
  effects (resetUpload x) = effects x ∧ wire (resetUpload x) = wire x ∧
  inflight (resetUpload x) = inflight x ∧
  batchContext (resetUpload x) = batchContext x ∧
  currentPage (resetUpload x) = currentPage x ∧
  currentDocId (resetUpload x) = currentDocId x ∧
  nextTimer (resetUpload x) = nextTimer x.
Proof. by destruct x as [? ? ? ? [?|] [?|] ? ? ? ? ? ? ?]. Qed.





(** ** Batch completion and reopening a batch *)

Lemma pollBatch_completed_fields b ds docs x :
  let x1 := pollBatch_resume b ds (BatchStatus "completed" docs) x in
  timers x1 = <[nextTimer x := mkTimer false 2000 (CompleteBatch b ds)]>
                (cancel (agentStepInterval x) (cancel (processingInterval x) (timers x))) ∧
  processingInterval x1 = processingInterval x ∧
  agentStepInterval x1 = agentStepInterval x ∧
  effects x1 = effects x ∧ batchContext x1 = batchContext x ∧
  currentDocId x1 = currentDocId x.
Proof. by destruct x as [? ? ? ? [?|] [?|] ? ? ? ? ? ? ?]. Qed.

Lemma includes_head d ds : includes (d :: ds) d = true.
Proof. unfold includes. simpl. by rewrite Z.eqb_refl. Qed.

Lemma completeBatch_fields b ds x :
  let x2 := completeBatch b ds x in
  timers x2 = cancel (agentStepInterval x) (cancel (processingInterval x) (timers x)) ∧
  batchContext x2 = (Some b, ds) ∧
  processingInterval x2 = None ∧ agentStepInterval x2 = None ∧
  (∀ d tl, ds = d :: tl → d ≠ 0 →
           effects x2 = effects x ++ [LoadAnalysis d (Some b)] ∧
           currentPage x2 = "analysis" ∧ currentDocId x2 = Some d) ∧
  (ds = [] →
   effects x2 = effects x ++ [LoadPage "documents"] ∧
   currentPage x2 = "documents" ∧ currentDocId x2 = currentDocId x).
Proof.
  destruct ds as [|d tl].
  { by destruct x as [? ? ? ? [?|] [?|] ? ? ? ? ? ? ?]. }
  unfold completeBatch, navigateTo, if_truthy, clearStaleBatch.
  cbn [String.eqb Ascii.eqb Bool.eqb].
  destruct (Z.eqb_spec d 0) as [->|Hd].
  - simpl truthy. cbn [negb].
    destruct x as [? [c|] ? ? [?|] [?|] ? ? ? ? ? ? ?]; simpl;
      repeat case_match; split_and!; try done; by intros ? ? [= <- <-].
  - assert (truthy (Some d) = true) as ->.
    { simpl. by apply negb_true_iff, Z.eqb_neq. }
    assert (∀ y, currentBatchDocIds (set_currentPage "analysis"
                   (set_batch (Some b) (d :: tl) y)) = d :: tl) as E by done.
    rewrite E, includes_head, andb_false_r.
    destruct x as [? ? ? ? [?|] [?|] ? ? ? ? ? ? ?]; simpl;
      split_and!; try done; by intros ? ? [= <- <-].
Qed.

(** X11. When the reply to a batch status query says 'completed', the
    two interval timers are cancelled and a 2000 ms timeout is
    scheduled; when it runs, the batch context becomes the batch just
    uploaded with its documents in upload order, and the analysis view
    of the first document is loaded once with that batch (the
    membership check keeps the context, the first document being a
    member).  A batch without documents opens the documents page
    instead and still leaves its id as the batch context. *)
Theorem batch_completed_opens_first_document st req b ds docs :
  wf st →
  inflight st !! req = Some (PollBatchK b ds) →
  let st1 := step (Replies req (BatchStatus "completed" docs)) st in
  let st2 := step (Fires (nextTimer st)) st1 in
  let rest := cancel (agentStepInterval st)
                (cancel (processingInterval st) (timers st)) in
  timers st1 = <[nextTimer st := mkTimer false 2000 (CompleteBatch b ds)]> rest ∧
  effects st1 = effects st ∧ batchContext st1 = batchContext st ∧
  timers st2 = rest ∧
  batchContext st2 = (Some b, ds) ∧
  processingInterval st2 = None ∧ agentStepInterval st2 = None ∧
  (∀ d tl, ds = d :: tl → d ≠ 0 →
           effects st2 = effects st ++ [LoadAnalysis d (Some b)] ∧
           currentPage st2 = "analysis" ∧ currentDocId st2 = Some d) ∧
  (ds = [] →
   effects st2 = effects st ++ [LoadPage "documents"] ∧
   currentPage st2 = "documents" ∧ currentDocId st2 = currentDocId st).
Proof.
  intros Hwf Hreq st1 st2 rest.
  assert (rest !! nextTimer st = None) as Hfresh.
  { subst rest. rewrite !lookup_cancel. repeat case_decide; try done.
    apply eq_None_not_Some. intros [tm Hi]. apply (wf_timers _ Hwf) in Hi. lia. }
  set (x := set_wire (wire st ++ [Settled req (PollBatchK b ds)
                                    (BatchStatus "completed" docs)])
              (set_inflight (delete req (inflight st)) st)).
  assert (st1 = pollBatch_resume b ds (BatchStatus "completed" docs) x) as E1.
  { subst st1. simpl. unfold settle. by rewrite Hreq. }
  destruct (pollBatch_completed_fields b ds docs x)
    as (Ht1 & Hp1 & Ha1 & He1 & Hb1 & Hc1).
  rewrite <- E1 in Ht1, Hp1, Ha1, He1, Hb1, Hc1.
  change (timers st1 = <[nextTimer st := mkTimer false 2000 (CompleteBatch b ds)]> rest)
    in Ht1.
  change (processingInterval st1 = processingInterval st) in Hp1.
  change (agentStepInterval st1 = agentStepInterval st) in Ha1.
  change (effects st1 = effects st) in He1.
  change (batchContext st1 = batchContext st) in Hb1.
  change (currentDocId st1 = currentDocId st) in Hc1.
  set (y := set_timers (delete (nextTimer st) (timers st1)) st1).
  assert (st2 = completeBatch b ds y) as E2.
  { subst st2. change (fire (nextTimer st) st1 = completeBatch b ds y).
    assert (timers st1 !! nextTimer st
            = Some (mkTimer false 2000 (CompleteBatch b ds))) as Hlk
      by (rewrite Ht1; apply lookup_insert_eq).
    unfold fire. by rewrite Hlk. }
  destruct (completeBatch_fields b ds y) as (Ht2 & Hb2 & Hp2 & Ha2 & Hne & Hnil).
  rewrite <- E2 in Ht2, Hb2, Hp2, Ha2, Hne, Hnil.
  change (agentStepInterval y) with (agentStepInterval st1) in Ht2.
  change (processingInterval y) with (processingInterval st1) in Ht2.
  change (timers y) with (delete (nextTimer st) (timers st1)) in Ht2.
  change (effects y) with (effects st1) in Hne, Hnil.
  change (currentDocId y) with (currentDocId st1) in Hnil.
  rewrite Ht1, Hp1, Ha1, delete_insert_eq, delete_id in Ht2 by done.
  subst rest. rewrite cancel_twice in Ht2.
  rewrite He1 in Hne, Hnil. rewrite Hc1 in Hnil.
  split_and!; done.
Qed.

Lemma batch_completed_opens_first_document_witness :
  effects (run [Replies 2 (BatchStatus "completed" [41; 42]); Fires 3] pollingBatch)
  = [LoadAnalysis 41 (Some 40)].
Proof.
  assert (wf pollingBatch) as Hwf by apply wf_run, wf_initial.
  destruct (batch_completed_opens_first_document pollingBatch 2 40 [41; 42]
              [41; 42] Hwf eq_refl) as (_ & _ & _ & _ & _ & _ & _ & H & _).
  exact (proj1 (H 41 [42] eq_refl ltac:(lia))).
Defined.

(** X12. [openBatchFromHistory]: a reply with documents replaces the
    batch context by that batch and its documents and loads the
    analysis view of the first one with the batch id.  Every failure
    (an error status, an empty batch, a thrown request) raises one
    alert and leaves batch context, current document and page as
    they were.  In no case are the timers of a running upload
    touched. *)
Theorem openBatchFromHistory_outcomes st req b :
  inflight st !! req = Some (OpenBatchK b) →
  (∀ status d ds,
     d ≠ 0 →
     let st' := step (Replies req (BatchStatus status (d :: ds))) st in
     batchContext st' = (Some b, d :: ds) ∧
     effects st' = effects st ++ [LoadAnalysis d (Some b)] ∧
     currentDocId st' = Some d ∧ currentPage st' = "analysis" ∧
     timers st' = timers st) ∧
  (∀ reply,
     match reply with
     | HttpError _ | Threw _ | BatchStatus _ [] => True
     | _ => False
     end →
     let st' := step (Replies req reply) st in
     batchContext st' = batchContext st ∧
     currentDocId st' = currentDocId st ∧ currentPage st' = currentPage st ∧
     timers st' = timers st ∧
     ∃ msg, effects st' = effects st ++ [Alert msg]).
Proof.
  intros Hreq. split.
  - intros status d ds Hd. simpl. unfold settle. rewrite Hreq. simpl.
    unfold navigateTo, if_truthy, clearStaleBatch.
    cbn [String.eqb Ascii.eqb Bool.eqb].
    assert (truthy (Some d) = true) as ->.
    { simpl. by apply negb_true_iff, Z.eqb_neq. }
    match goal with
    | |- context [includes (currentBatchDocIds ?y) d] =>
        change (currentBatchDocIds y) with (d :: ds)
    end.
    rewrite includes_head, andb_false_r. done.
  - intros reply Hreply. simpl. unfold settle. rewrite Hreq.
    destruct reply as [| | | | |? [|? ?]| |]; try done; simpl;
      split_and!; try done; by eexists.
Qed.

Lemma openBatchFromHistory_outcomes_witness :
  let st := run [OpenBatchFromHistory 40] pollingSingle in
  batchContext (step (Replies 3 (BatchStatus "completed" [41; 42])) st)
  = (Some 40, [41; 42]) ∧
  effects (step (Replies 3 (HttpError None)) st) = [Alert "Failed to load batch"].
Proof.
  intros st.
  destruct (openBatchFromHistory_outcomes st 3 40 eq_refl) as [Hok Hfail].
  split.
  - exact (proj1 (Hok "completed" 41 [42] ltac:(lia))).
  - destruct (Hfail (HttpError None) I) as (_ & _ & _ & _ & msg & H).
    reflexivity.
Defined.

(** ** Timers nobody holds *)

Lemma orphaned_frame h tm x x' :
  timers x' = timers x → nextTimer x' = nextTimer x →
  processingInterval x' = processingInterval x →
  agentStepInterval x' = agentStepInterval x →
  orphaned h tm x → orphaned h tm x'.
Proof. intros Ht Hn Hp Ha H. unfold orphaned. by rewrite Ht, Hn, Hp, Ha. Qed.

Lemma orphaned_emit h tm e x : orphaned h tm x → orphaned h tm (emit e x).
Proof. by apply orphaned_frame. Qed.

Lemma orphaned_set_currentPage h tm v x :
  orphaned h tm x → orphaned h tm (set_currentPage v x).
Proof. by apply orphaned_frame. Qed.

Lemma orphaned_set_currentDocId h tm v x :
  orphaned h tm x → orphaned h tm (set_currentDocId v x).
Proof. by apply orphaned_frame. Qed.

Lemma orphaned_set_batch h tm b ids x :
  orphaned h tm x → orphaned h tm (set_batch b ids x).
Proof. by apply orphaned_frame. Qed.

Lemma orphaned_fetch h tm k x : orphaned h tm x → orphaned h tm (fetch k x).
Proof. by apply orphaned_frame. Qed.

Lemma orphaned_delete h tm h' x :
  h' ≠ h → orphaned h tm x → orphaned h tm (set_timers (delete h' (timers x)) x).
Proof.
  intros Hne (H1 & H2). split; [|done]. simpl. by rewrite lookup_delete_ne.
Qed.

Lemma orphaned_setTimeout h tm t ms x :
  orphaned h tm x → orphaned h tm (setTimeout t ms x).
Proof.
  intros (H1 & H2 & H3 & H4 & H5 & H6). unfold orphaned. simpl.
  rewrite lookup_insert_ne by lia. split_and!; try done. lia.
Qed.

(** Clearing the two handles leaves the timer alone. *)
Lemma orphaned_clear_both h tm x :
  orphaned h tm x →
  orphaned h tm (clearInterval (agentStepInterval x)
                   (clearInterval (processingInterval x) x)).
Proof.
  intros H. pose proof H as (_ & _ & _ & _ & Hp & Ha).
  destruct x as [? ? ? ? [p|] [a|] ? ? ? ? ? ? ?]; simpl in *; try done;
    repeat apply orphaned_delete; try done; congruence.
Qed.

Lemma orphaned_agentStepTick h tm h' k x :
  h' ≠ h → orphaned h tm x → orphaned h tm (agentStepTick h' k x).
Proof.
  intros Hne H. pose proof H as (H1 & H2 & H3 & H4 & Hp & Ha).
  unfold agentStepTick. case_match.
  - unfold orphaned. simpl. by rewrite lookup_alter_ne.
  - destruct (agentStepInterval x) as [a|] eqn:Ea; simpl; [|done].
    rewrite <- Ea in Ha. apply orphaned_delete; [congruence|done].
Qed.

Lemma orphaned_resetUpload h tm x : orphaned h tm x → orphaned h tm (resetUpload x).
Proof.
  intros H. pose proof H as (H1 & H2 & H3 & H4 & Hp & Ha).
  unfold orphaned. rewrite resetUpload_timers, !lookup_cancel.
  destruct (resetUpload_handles x) as [-> ->].
  destruct (resetUpload_keeps x) as (_ & _ & _ & _ & _ & _ & ->).
  rewrite !decide_False by done. done.
Qed.

Create HintDb orphaned discriminated.
#[local] Hint Resolve orphaned_emit orphaned_set_currentPage
  orphaned_set_currentDocId orphaned_set_batch orphaned_fetch
  orphaned_setTimeout orphaned_resetUpload : orphaned.

Lemma orphaned_navigateTo h tm page docId x :
  orphaned h tm x → orphaned h tm (navigateTo page docId x).
Proof.
  intros H.
  unfold navigateTo, clearStaleBatch, loadAnalysis, fetchLatestDocForAnalysis.
  repeat case_match; auto 10 with orphaned.
Qed.
#[local] Hint Resolve orphaned_navigateTo : orphaned.

Lemma orphaned_fire h tm h' x : orphaned h tm x → orphaned h tm (fire h' x).
Proof.
  intros H. pose proof H as (H1 & H2 & H3 & H4 & Hp & Ha). unfold fire.
  destruct (timers x !! h') as [tm'|] eqn:Hh'; [|done].
  assert (repeat tm' = false → h' ≠ h) as Hone by (intros ? ->; congruence).
  assert (orphaned h tm (if repeat tm' then x
                         else set_timers (delete h' (timers x)) x)) as H'.
  { destruct (repeat tm') eqn:E; [done|]. apply orphaned_delete; [by apply Hone|done]. }
  destruct (task tm') eqn:Ht;
    unfold completeSingle, completeBatch, afterDeletePause;
    repeat case_match; auto 10 with orphaned.
  (* the animator: it rewrites its own entry or clears [agentStepInterval] *)
  all: apply orphaned_agentStepTick; [|done].
  all: intros ->; rewrite H1 in Hh'; injection Hh' as <-.
  all: by rewrite Ht in H3.
Qed.

Lemma orphaned_resume h tm k reply x x' :
  orphaned h tm x → resume k reply x = Some x' → orphaned h tm x'.
Proof.
  intros H Hr. pose proof H as (H1 & H2 & H3 & H4 & Hp & Ha).
  pose proof (orphaned_clear_both h tm x H) as Hclr.
  destruct k; simpl in Hr;
    unfold uploadSingle_resume, uploadBatch_resume, pollSingle_resume,
      pollBatch_resume, deleteDocument_resume, deleteHistoryItem_resume,
      openBatchFromHistory_resume, fetchLatest_resume, loadAnalysis, alert,
      setInterval in Hr;
    destruct reply; simpl in Hr; simplify_eq;
    repeat case_match; simplify_eq; auto 10 with orphaned.
  all: try (apply orphaned_setTimeout;
            by destruct x as [? ? ? ? [?|] [?|] ? ? ? ? ? ? ?]).
  all: try (apply orphaned_resetUpload, orphaned_emit;
            by destruct x as [? ? ? ? [?|] [?|] ? ? ? ? ? ? ?]).
  all: unfold orphaned; simpl;
    rewrite !lookup_insert_ne by lia;
    split_and!; try done; try lia; intros [= E]; lia.
Qed.

Lemma orphaned_settle h tm req reply x :
  orphaned h tm x → orphaned h tm (settle req reply x).
Proof.
  intros H. unfold settle.
  destruct (inflight x !! req) as [k|] eqn:Hk; [|done].
  case_match eqn:Hr; [|done].
  eapply orphaned_resume; [|exact Hr]. by apply (orphaned_frame h tm x).
Qed.

Lemma orphaned_step h tm e x : orphaned h tm x → orphaned h tm (step e x).
Proof.
  intros H. destruct e; simpl;
    unfold uploadSingle, uploadBatch, deleteDocument, deleteHistoryItem,
      openBatchFromHistory;
    repeat case_match; auto using orphaned_fire, orphaned_settle with orphaned.
Qed.

(** X13. A poll timer whose handle is held neither by
    [processingInterval] nor by [agentStepInterval] is never cancelled:
    whatever the user does and whatever arrives, it stays active and
    keeps sending status queries.  (Two uploads accepted one after the
    other leave the poll timer of the first in that position.) *)
Theorem orphaned_poll_timer_is_never_cancelled h tm evs st :
  orphaned h tm st →
  orphaned h tm (run evs st) ∧
  pollTraffic (wire (step (Fires h) (run evs st)))
  = S (pollTraffic (wire (run evs st))).
Proof.
  intros H.
  assert (orphaned h tm (run evs st)) as H'.
  { revert st H. induction evs as [|e evs IH]; intros st H; simpl; [done|].
    by apply IH, orphaned_step. }
  split; [done|].
  destruct H' as (H1 & H2 & H3 & _). simpl. unfold fire. rewrite H1, H2.
  destruct (task tm); try discriminate; simpl;
    by rewrite pollTraffic_snoc, Nat.add_1_r.
Qed.

Lemma orphaned_poll_timer_is_never_cancelled_witness :
  timers (run [Navigate "upload" None; Replies 3 (DocumentStatus "failed")]
            overlappingUploads) !! 2%positive
  = Some (mkTimer true 3000 (PollSingle 7)).
Proof.
  assert (orphaned 2 (mkTimer true 3000 (PollSingle 7)) overlappingUploads) as H.
  { unfold orphaned. split_and!; try done. }
  apply (orphaned_poll_timer_is_never_cancelled 2 _
           [Navigate "upload" None; Replies 3 (DocumentStatus "failed")] _ H).
Defined.

(** X14. As long as an upload is accepted only while no poll timer
    and no animator of an earlier one is active, every state reached
    from the initial one has each active poll timer in
    [processingInterval] and each active animator in
    [agentStepInterval]; so there is never more than one poll timer
    and never more than one animator. *)
Theorem one_upload_at_a_time_keeps_handles n evs :
  oneAtATime evs (initial n) →
  owned (run evs (initial n)) ∧
  ∀ h1 h2 tm1 tm2,
    timers (run evs (initial n)) !! h1 = Some tm1 →
    timers (run evs (initial n)) !! h2 = Some tm2 →
    (isPollTask (task tm1) = true → isPollTask (task tm2) = true → h1 = h2) ∧
    (isAnimator (task tm1) = true → isAnimator (task tm2) = true → h1 = h2).
Proof.
  intros Hevs.
  assert (owned (run evs (initial n))) as Hown by (by apply owned_run, owned_initial).
  split; [done|]. intros h1 h2 tm1 tm2 H1 H2.
  destruct (Hown h1 tm1 H1) as [Hp1 Ha1], (Hown h2 tm2 H2) as [Hp2 Ha2].
  split; intros G1 G2.
  - specialize (Hp1 G1). specialize (Hp2 G2). congruence.
  - specialize (Ha1 G1). specialize (Ha2 G2). congruence.
Qed.

Lemma one_upload_at_a_time_keeps_handles_witness :
  owned scenarioA_polling_fresh.
Proof.
  apply (one_upload_at_a_time_keeps_handles 8
           [UploadSingle; Replies 1 (Uploaded 7);
            Fires 2; Replies 2 (DocumentStatus "processing");
            Fires 1; Fires 2]).
  simpl. split_and!; done.
Defined.

(** ** Polling does not start by itself *)

(** X15. From a state in which no poll timer is active and no upload
    or status request is out, nothing but a new submission makes the
    script poll: over any run of navigations, deletes, reopened
    batches, timers and replies, no status query is sent or processed
    and the state stays that quiet. *)
Theorem polling_never_restarts st evs :
  quiet st →
  forallb (λ e, negb (isSubmission e)) evs = true →
  quiet (run evs st) ∧
  pollTraffic (wire (run evs st)) = pollTraffic (wire st) ∧
  terminalCount (wire (run evs st)) = terminalCount (wire st).
Proof.
  intros Q Hevs.
  pose proof (calm_run st evs st Hevs Q (calm_refl st)) as C.
  split; [by eapply calm_quiet|]. by destruct C as (_ & _ & -> & ->).
Qed.

Lemma polling_never_restarts_witness :
  pollTraffic
    (wire (run [Navigate "analysis" None; Replies 1 (DocumentList []);
                DeleteDocument 7 true; Replies 2 Deleted; Fires 1;
                OpenBatchFromHistory 40; Replies 3 (BatchStatus "completed" [41])]
             (initial 8)))
  = 0%nat.
Proof.
  assert (quiet (initial 8)) as Q.
  { split; intros ? ? H; simpl in H; by rewrite lookup_empty in H. }
  exact (proj1 (proj2 (polling_never_restarts (initial 8)
           [Navigate "analysis" None; Replies 1 (DocumentList []);
            DeleteDocument 7 true; Replies 2 Deleted; Fires 1;
            OpenBatchFromHistory 40; Replies 3 (BatchStatus "completed" [41])]
           Q eq_refl))).
Defined.

(** ** Deleting the document on display *)

Lemma deleteDocumentFlow_keeps st docId :
  wf st →
  ∃ x, run (deleteDocumentFlow docId st) st = afterDeletePause x ∧
       timers x = timers st ∧ currentPage x = currentPage st ∧
       currentDocId x = currentDocId st ∧ batchContext x = batchContext st ∧
       effects x = effects st.
Proof.
  intros Hwf.
  assert (timers st !! nextTimer st = None) as Hfresh.
  { apply eq_None_not_Some. intros [tm Hi]. apply (wf_timers _ Hwf) in Hi. lia. }
  eexists. split.
  - change (run (deleteDocumentFlow docId st) st)
      with (fire (nextTimer st)
              (settle (nextRequest st) Deleted
                 (fetch (DeleteDocumentK docId) st))).
    rewrite (settle_deleted _ docId) by apply lookup_insert_eq.
    apply fire_timeout with (tm := mkTimer false 600 DeletePause);
      [apply lookup_insert_eq|done..].
  - simpl. rewrite delete_insert_eq. by rewrite delete_id.
Qed.



(** X17. A delete that fails, through either delete function and
    whether the server refused or the request threw, raises one alert
    and does nothing else: no pause is scheduled, so no navigation
    follows, and timers, handles, page, current document and batch
    context are as before. *)
Theorem failed_delete_only_alerts st req k reply :
  inflight st !! req = Some k →
  match k with DeleteDocumentK _ | DeleteHistoryK _ _ => True | _ => False end →
  match reply with Threw _ | HttpError _ => True | _ => False end →
  let st' := step (Replies req reply) st in
  timers st' = timers st ∧ nextTimer st' = nextTimer st ∧
  processingInterval st' = processingInterval st ∧
  agentStepInterval st' = agentStepInterval st ∧
  currentPage st' = currentPage st ∧ currentDocId st' = currentDocId st ∧
  batchContext st' = batchContext st ∧
  ∃ msg, effects st' = effects st ++ [Alert msg] ∨
         effects st' = effects st ++ [ConsoleError "Delete error"; Alert msg].
Proof.
  intros Hreq Hk Hreply. simpl. unfold settle. rewrite Hreq.
  destruct k; try done; destruct reply; try done; simpl; split_and!; try done.
  all: eexists; unfold alert, emit; simpl; rewrite <- ?app_assoc; simpl; eauto.
Qed.

Lemma failed_delete_only_alerts_witness :
  let st := run [DeleteHistoryItem "batch" 40 true] pollingBatch in
  effects (step (Replies 3 (HttpError None)) st)
  = [Alert "Failed to delete: Unknown error"] ∧
  timers (step (Replies 3 (HttpError None)) st) = timers pollingBatch.
Proof.
  intros st.
  destruct (failed_delete_only_alerts st 3 (DeleteHistoryK "batch" 40)
              (HttpError None) eq_refl I I) as (Ht & _).
  split; [reflexivity|exact Ht].
Defined.

(** ** The animator and navigation leave polling alone *)

(** X18. A tick of the animator is decorative: it sends nothing,
    shows nothing through alerts or views, and changes neither the
    handles nor page, current document or batch context.  The only
    timers it can touch are its own entry and the one
    [agentStepInterval] holds; every other timer, the poll timer
    among them, stays as it is, also when the animator has run out of
    stages. *)
Theorem animator_tick_is_decorative st h tm k :
  timers st !! h = Some tm → task tm = AgentStepTick k →
  let st' := step (Fires h) st in
  effects st' = effects st ∧ wire st' = wire st ∧ inflight st' = inflight st ∧
  processingInterval st' = processingInterval st ∧
  agentStepInterval st' = agentStepInterval st ∧
  currentPage st' = currentPage st ∧ currentDocId st' = currentDocId st ∧
  batchContext st' = batchContext st ∧
  ∀ h', h' ≠ h → agentStepInterval st ≠ Some h' →
        timers st' !! h' = timers st !! h'.
Proof.
  intros Hh Ht. simpl. unfold fire. rewrite Hh, Ht. unfold agentStepTick.
  destruct st as [? ? ? ? ? [a|] n tms ? ? ? ? ?]; simpl in *;
    destruct (repeat tm); simpl; destruct (k <? n)%nat; simpl;
    split_and!; try done; intros h' Hne Ha;
    rewrite ?lookup_alter_ne, ?lookup_delete_ne by congruence; try done.
Qed.

Lemma animator_tick_is_decorative_witness :
  timers (step (Fires 1) pollingSingle) !! 2%positive
  = Some (mkTimer true 3000 (PollSingle 7)) ∧
  effects (step (Fires 1) pollingSingle) = [].
Proof.
  destruct (animator_tick_is_decorative pollingSingle 1
              (mkTimer true 3000 (AgentStepTick 0)) 0 eq_refl eq_refl)
    as (He & _ & _ & _ & _ & _ & _ & _ & Ht).
  split; [|exact He].
  rewrite (Ht 2%positive); [reflexivity|discriminate|discriminate].
Defined.

(** X19. Moving to any page other than the upload page does not stop
    an upload: every timer and both handles stay as they are and no
    status query is sent or dropped.  Only [navigateTo('upload')]
    tears the upload down. *)
Theorem navigation_keeps_polling st page docId :
  page ≠ "upload" →
  let st' := step (Navigate page docId) st in
  timers st' = timers st ∧
  processingInterval st' = processingInterval st ∧
  agentStepInterval st' = agentStepInterval st ∧
  pollTraffic (wire st') = pollTraffic (wire st) ∧
  ∀ req k, isPoll k = true → inflight st !! req = Some k →
           (req < nextRequest st)%positive →
           inflight st' !! req = Some k.
Proof.
  intros Hpg%String.eqb_neq. simpl. unfold navigateTo. rewrite Hpg.
  unfold clearStaleBatch, loadAnalysis, fetchLatestDocForAnalysis, fetch.
  repeat case_match; simpl; split_and!; try done;
    try (rewrite pollTraffic_snoc; simpl; lia);
    intros req k Hk Hreq Hlt; by rewrite lookup_insert_ne by lia.
Qed.

Lemma navigation_keeps_polling_witness :
  timers (step (Navigate "documents" None) pollingSingle) !! 2%positive
  = Some (mkTimer true 3000 (PollSingle 7)).
Proof.
  destruct (navigation_keeps_polling pollingSingle "documents" None
              ltac:(discriminate)) as (-> & _).
  reflexivity.
Defined.

(** ** The latest document *)

(** X20. The reply to [fetchLatestDocForAnalysis] loads the first row
    that is completed and has an analysis, without a batch, and
    leaves the batch context as it is; with no such row it does
    nothing at all.  The context is therefore not checked against
    that document: the next [navigateTo('analysis')] without a
    document loads it again together with whatever batch id is still
    current. *)
Theorem fetchLatest_keeps_batch_context st req documents :
  inflight st !! req = Some FetchLatestK →
  let st1 := step (Replies req (DocumentList documents)) st in
  let st2 := step (Navigate "analysis" None) st1 in
  (readyRows documents = [] →
   effects st1 = effects st ∧ currentDocId st1 = currentDocId st ∧
   batchContext st1 = batchContext st) ∧
  (∀ r rest,
     readyRows documents = r :: rest →
     effects st1 = effects st ++ [LoadAnalysis (row_id r) None] ∧
     currentDocId st1 = Some (row_id r) ∧
     batchContext st1 = batchContext st ∧
     (row_id r ≠ 0 →
      effects st2 = effects st ++ [LoadAnalysis (row_id r) None;
                                   LoadAnalysis (row_id r) (currentBatchId st)] ∧
      batchContext st2 = batchContext st)).
Proof.
  intros Hreq st1 st2.
  assert (st1 = match readyRows documents with
                | d :: _ =>
                    loadAnalysis (row_id d) None
                      (set_wire (wire st ++ [Settled req FetchLatestK
                                               (DocumentList documents)])
                         (set_inflight (delete req (inflight st)) st))
                | [] =>
                    set_wire (wire st ++ [Settled req FetchLatestK
                                            (DocumentList documents)])
                      (set_inflight (delete req (inflight st)) st)
                end) as E1.
  { subst st1. simpl. unfold settle. rewrite Hreq. simpl.
    fold (readyRows documents). by destruct (readyRows documents). }
  split.
  - intros Hnone. rewrite Hnone in E1. by rewrite E1.
  - intros r rest Hr. rewrite Hr in E1. split_and!; try by rewrite E1.
    intros Hd.
    assert (truthy (Some (row_id r)) = true) as Htr.
    { simpl. by apply negb_true_iff, Z.eqb_neq. }
    assert (currentDocId (set_currentPage "analysis" st1) = Some (row_id r)) as Hc
      by (by rewrite E1).
    assert (currentBatchId (set_currentPage "analysis" st1) = currentBatchId st)
      as Hb by (by rewrite E1).
    subst st2. change (step (Navigate "analysis" None) st1)
      with (navigateTo "analysis" None st1).
    unfold navigateTo, if_truthy. cbn [String.eqb Ascii.eqb Bool.eqb].
    rewrite Hc, Htr, Hb. unfold loadAnalysis, batchContext. simpl.
    rewrite E1. simpl. by rewrite <- app_assoc.
Qed.

Lemma fetchLatest_keeps_batch_context_witness :
  effects (run [Replies 1 (DocumentList [mkRow 9 "processing" false;
                                         mkRow 7 "completed" true]);
                Navigate "analysis" None] latestPending)
  = [LoadAnalysis 41 (Some 40); LoadAnalysis 7 None; LoadAnalysis 7 (Some 40)].
Proof.
  destruct (fetchLatest_keeps_batch_context latestPending 1
              [mkRow 9 "processing" false; mkRow 7 "completed" true] eq_refl)
    as [_ H].
  destruct (H (mkRow 7 "completed" true) [] eq_refl) as (_ & _ & _ & H').
  exact (proj1 (H' ltac:(simpl; lia))).
Defined.
